(** * morphle_eth2can: the Ethernet-to-CAN transport of python-can

    A shallow embedding of [can/interfaces/morphle_eth2can/morphle_eth2can.py]
    and the properties of its wire format, of the reassembly of frames from
    the TCP byte stream, and of its error paths.

    Bytes are [Byte.byte]; Python integers are [Z]; Python floats are the
    binary64 numbers of [PrimFloat].  The socket, [select] and the clock are
    the environment: what they answer is an argument of the functions below,
    and the calls made to them are recorded as a list of events. *)

From Stdlib Require Import Strings.String.
From Stdlib Require Strings.Byte.
From Stdlib Require Import ZArith List Lia Bool Arith.
From Stdlib Require Import Floats.PrimFloat.
Import ListNotations.

Local Open Scope Z_scope.

(** ** Python values *)

Abbreviation byte := Byte.byte.

(** The integer a byte stands for, as read from a [bytes] object or from a
    list built from one. *)
Definition byte_val (b : byte) : Z := Z.of_N (Byte.to_N b).

(** [bytes([z])]: defined for [0 <= z <= 255] only. *)
Definition byte_of_Z (z : Z) : option byte :=
  if (0 <=? z) && (z <=? 255) then Byte.of_N (Z.to_N z) else None.

(** [l[a:b]] for non-negative [a] and [b]. *)
Definition slice {A : Type} (a b : nat) (l : list A) : list A :=
  firstn (b - a) (skipn a l).

(** Exceptions the module raises or lets through.  [TimeoutError] is a
    subclass of [OSError] in Python 3. *)
Inductive exn : Type :=
| OSError (msg : string)
| TimeoutError (msg : string)
| ValueError (msg : string)
| IndexError
| StructError
| CanError (cause : exn).

Definition is_OSError (e : exn) : bool :=
  match e with
  | OSError _ | TimeoutError _ => true
  | _ => false
  end.

Inductive result (A : Type) : Type :=
| Return (a : A)
| Raise (e : exn).
Arguments Return {A} a.
Arguments Raise {A} e.

(** ** The [struct] format [">BI"] *)

Module Struct.

(** [struct.pack(">BI", b, i)]: one unsigned byte and one big-endian
    unsigned 32-bit integer; [struct.error] ([None]) when an argument is out
    of range. *)
Definition pack_BI (b i : Z) : option (list byte) :=
  if (0 <=? i) && (i <=? 0xFFFFFFFF) then
    match byte_of_Z b,
          byte_of_Z (Z.land (Z.shiftr i 24) 0xFF),
          byte_of_Z (Z.land (Z.shiftr i 16) 0xFF),
          byte_of_Z (Z.land (Z.shiftr i 8) 0xFF),
          byte_of_Z (Z.land i 0xFF) with
    | Some b0, Some b1, Some b2, Some b3, Some b4 => Some [b0; b1; b2; b3; b4]
    | _, _, _, _, _ => None
    end
  else None.

(** [struct.unpack(">BI", buf)]: [struct.error] ([None]) unless [buf] has
    exactly five bytes. *)
Definition unpack_BI (buf : list byte) : option (Z * Z) :=
  match buf with
  | [b0; b1; b2; b3; b4] =>
      Some (byte_val b0,
            Z.lor (Z.shiftl (byte_val b1) 24)
              (Z.lor (Z.shiftl (byte_val b2) 16)
                 (Z.lor (Z.shiftl (byte_val b3) 8) (byte_val b4))))
  | _ => None
  end.

End Struct.

(** ** CAN messages *)

(** Modelled from the spec: the class [can.Message] is not part of the
    interface module; the record keeps the four fields of the CanMessage of
    the data model, which are the four the module reads or sets. *)
Record Message : Type := mkMessage {
  arbitration_id : Z;
  data : list byte;
  is_extended_id : bool;
  timestamp : float
}.

(** ** The socket as environment *)

Inductive select_reply : Type :=
| SelectReturns (ready : bool)
| SelectRaises (e : exn).

Inductive recv_reply : Type :=
| RecvReturns (msg : list byte)
| RecvRaises (e : exn).

Inductive sendall_reply : Type :=
| SendallReturns
| SendallRaises (e : exn).

(** What the socket answers to the calls of one method. *)
Record world : Type := mkWorld {
  on_select : select_reply;
  on_recv : recv_reply;
  on_sendall : sendall_reply
}.

(** The calls made on the socket, in order. *)
Inductive event : Type :=
| EvSelect (timeout : option float)
| EvRecv (bufsize : Z)
| EvSendall (msg : list byte)
| EvClose.

(** ** MorphleCanBus *)

Definition ethcan_message_fixed_len : nat := 13.
Definition ethcan_message_head : Z := 0x08.

Record MorphleCanBus : Type := mkBus {
  message_buffer : list Message;   (* deque; the head is the left end *)
  receive_buffer : list byte;
  socket_closed : bool
}.

Definition set_message_buffer (q : list Message) (self : MorphleCanBus) :=
  {| message_buffer := q;
     receive_buffer := receive_buffer self;
     socket_closed := socket_closed self |}.

Definition set_receive_buffer (b : list byte) (self : MorphleCanBus) :=
  {| message_buffer := message_buffer self;
     receive_buffer := b;
     socket_closed := socket_closed self |}.

(** The bus as [__init__] leaves it once the connection is made. *)
Definition new_bus : MorphleCanBus :=
  {| message_buffer := []; receive_buffer := []; socket_closed := false |}.

(** [can.Message(arbitration_id=struct.unpack(">BI", bytes(can_frame[:5]))[1],
     data=can_frame[5:], is_extended_id=False, timestamp=0.0)] *)
Definition decode_frame (can_frame : list byte) : result Message :=
  match Struct.unpack_BI (firstn 5 can_frame) with
  | Some (_, aid) =>
      Return {| arbitration_id := aid;
                data := skipn 5 can_frame;
                is_extended_id := false;
                timestamp := 0%float |}
  | None => Raise StructError
  end.

(** The body of the [for i in range(...)] loop of [_recv_internal]. *)
Definition frame_step (i : nat) (self : MorphleCanBus)
  : result unit * MorphleCanBus :=
  let can_frame :=
    slice (i * ethcan_message_fixed_len) ((i + 1) * ethcan_message_fixed_len)
      (receive_buffer self) in
  match nth_error (receive_buffer self) (i * ethcan_message_fixed_len) with
  | None => (Raise IndexError, self)
  | Some head =>
      if byte_val head <=? ethcan_message_head then
        match decode_frame can_frame with
        | Return m =>
            (Return tt, set_message_buffer (message_buffer self ++ [m]) self)
        | Raise e => (Raise e, self)
        end
      else (Return tt, self)
  end.

Fixpoint for_range (js : list nat) (self : MorphleCanBus)
  : result unit * MorphleCanBus :=
  match js with
  | [] => (Return tt, self)
  | i :: js' =>
      match frame_step i self with
      | (Return _, self') => for_range js' self'
      | (Raise e, self') => (Raise e, self')
      end
  end.

(** The reassembly pass of [_recv_internal]: from
    [self.__receive_buffer += msg] to the re-assignment of
    [self.__receive_buffer].  [int(len(buf) / 13)] goes through a float
    division, which is exact for every length a list can have, so it is the
    integer quotient. *)
Definition feed (msg : list byte) (self : MorphleCanBus)
  : result unit * MorphleCanBus :=
  let self1 := set_receive_buffer (receive_buffer self ++ msg) self in
  let n := (length (receive_buffer self1) / ethcan_message_fixed_len)%nat in
  match for_range (seq 0 n) self1 with
  | (Return _, self2) =>
      let k := (length (receive_buffer self2) / ethcan_message_fixed_len)%nat in
      (Return tt,
       set_receive_buffer
         (skipn (k * ethcan_message_fixed_len) (receive_buffer self2)) self2)
  | (Raise e, self2) => (Raise e, self2)
  end.

(** Successive passes, one per chunk read from the socket. *)
Fixpoint feed_all (chunks : list (list byte)) (self : MorphleCanBus)
  : result unit * MorphleCanBus :=
  match chunks with
  | [] => (Return tt, self)
  | c :: cs =>
      match feed c self with
      | (Return _, self') => feed_all cs self'
      | (Raise e, self') => (Raise e, self')
      end
  end.

Definition _recv_internal (self : MorphleCanBus) (timeout : option float)
    (w : world)
  : result (option Message * bool) * MorphleCanBus * list event :=
  match message_buffer self with
  | can_message :: rest =>
      (Return (Some can_message, false), set_message_buffer rest self, [])
  | [] =>
      match on_select w with
      | SelectRaises exc =>
          if is_OSError exc
          then (Raise (CanError exc), self, [EvSelect timeout])
          else (Raise exc, self, [EvSelect timeout])
      | SelectReturns false =>
          (Return (None, false), self, [EvSelect timeout])
      | SelectReturns true =>
          let io := [EvSelect timeout; EvRecv 1024] in
          match on_recv w with
          | RecvRaises exc => (Raise (CanError exc), self, io)
          | RecvReturns msg =>
              match feed msg self with
              | (Raise exc, self') => (Raise (CanError exc), self', io)
              | (Return _, self') =>
                  match message_buffer self' with
                  | [] => (Return (None, false), self', io)
                  | can_message :: rest =>
                      (Return (Some can_message, false),
                       set_message_buffer rest self', io)
                  end
              end
          end
      end
  end.

Definition _tcp_send (msg : list byte) (w : world)
  : result unit * list event :=
  match on_sendall w with
  | SendallReturns => (Return tt, [EvSendall msg])
  | SendallRaises e => (Raise e, [EvSendall msg])
  end.

(** [send] does not touch the buffers of the bus. *)
Definition send (self : MorphleCanBus) (msg : Message)
    (timeout : option float) (w : world)
  : result unit * list event :=
  match Struct.pack_BI ethcan_message_head (arbitration_id msg) with
  | None => (Raise StructError, [])
  | Some header_payload =>
      let homing_payload := header_payload ++ data msg in
      _tcp_send homing_payload w
  end.

(** [super().shutdown()] concerns the periodic tasks of the base class; then
    the socket is closed. *)
Definition shutdown (self : MorphleCanBus) : MorphleCanBus * list event :=
  ({| message_buffer := message_buffer self;
      receive_buffer := receive_buffer self;
      socket_closed := true |}, [EvClose]).

(** ** connect_to_server *)

(** One turn of the retry loop as the environment decides it: [s.connect]
    returns, or it raises an [Exception] and [time.time()] then reads [t]
    seconds. *)
Inductive attempt : Type :=
| Connects
| Refused (e : exn) (t : float).

Definition timeout_ms : float := 10000%float.

Definition timeout_message : string :=
  "connect_to_server: Failed to connect server for 10000 ms"%string.

(** The [while now < end_time] loop.  The result is [None] when the script of
    the environment ends while the loop is still retrying; the number counts
    the calls of [s.connect]. *)
Fixpoint retry_loop (now end_time : float) (script : list attempt)
  : option (result unit) * nat :=
  if (now <? end_time)%float then
    match script with
    | [] => (None, 0%nat)
    | Connects :: _ => (Some (Return tt), 1%nat)
    | Refused _ t :: script' =>
        let (r, n) := retry_loop (t * 1000)%float end_time script' in
        (r, S n)
    end
  else (Some (Raise (TimeoutError timeout_message)), 0%nat).

(** [t0] is the first reading of [time.time()]. *)
Definition connect_to_server (t0 : float) (script : list attempt)
  : option (result unit) * nat :=
  let now := (t0 * 1000)%float in
  let end_time := (now + timeout_ms)%float in
  retry_loop now end_time script.

(** A refusal whose clock reading leaves the loop running. *)
Definition in_window (end_time : float) (a : attempt) : bool :=
  match a with
  | Connects => false
  | Refused _ t => (t * 1000 <? end_time)%float
  end.

(** ** Auxiliary definitions for the proofs *)

(** The messages one 13-byte window contributes. *)
Definition window_messages (can_frame : list byte) : list Message :=
  match can_frame with
  | [] => []
  | head :: _ =>
      if byte_val head <=? ethcan_message_head then
        match decode_frame can_frame with
        | Return m => [m]
        | Raise _ => []
        end
      else []
  end.

(** The messages of the first [n] windows of [buf]. *)
Fixpoint decode_windows (n : nat) (buf : list byte) : list Message :=
  match n with
  | O => []
  | S n' =>
      window_messages (firstn ethcan_message_fixed_len buf)
        ++ decode_windows n' (skipn ethcan_message_fixed_len buf)
  end.

(** What a pass over the stream [s] decodes and what it leaves, read off the
    pass itself run on a fresh bus. *)
Definition decoded (s : list byte) : list Message :=
  message_buffer (snd (feed s new_bus)).

Definition leftover (s : list byte) : list byte :=
  receive_buffer (snd (feed s new_bus)).

(** The big-endian value of four bytes, as [unpack_BI] computes it. *)
Definition be32 (b1 b2 b3 b4 : byte) : Z :=
  Z.lor (Z.shiftl (byte_val b1) 24)
    (Z.lor (Z.shiftl (byte_val b2) 16)
       (Z.lor (Z.shiftl (byte_val b3) 8) (byte_val b4))).

(** ** Callers *)

(** The bytes a call of [_recv_internal] takes from the socket: what [recv]
    returns, when the call gets as far as reading. *)
Definition bytes_taken (self : MorphleCanBus) (w : world) : list byte :=
  match message_buffer self, on_select w, on_recv w with
  | [], SelectReturns true, RecvReturns msg => msg
  | _, _, _ => []
  end.

(** What a caller observes over successive calls of [_recv_internal]: the
    messages returned, the bytes taken from the socket, the socket calls made,
    and the bus at the end. *)
Record polled : Type := mkPolled {
  got : list Message;
  taken : list byte;
  sock_calls : list event;
  final : MorphleCanBus
}.

(** One call per world, each on the bus the previous call left; a call that
    raises returns no message and the caller goes on with the next call. *)
Fixpoint poll (ws : list world) (timeout : option float)
    (self : MorphleCanBus) : polled :=
  match ws with
  | [] => {| got := []; taken := []; sock_calls := []; final := self |}
  | w :: ws' =>
      let '(r, self', io) := _recv_internal self timeout w in
      let rest := poll ws' timeout self' in
      {| got := match r with
                | Return (Some m, _) => m :: got rest
                | _ => got rest
                end;
         taken := bytes_taken self w ++ taken rest;
         sock_calls := io ++ sock_calls rest;
         final := final rest |}
  end.

(** The bytes [send] hands to [sendall] for [m]; they depend on [m] only.
    Empty when [send] raises before reaching the socket. *)
Definition sent_bytes (m : Message) : list byte :=
  match snd (send new_bus m None
               {| on_select := SelectReturns false;
                  on_recv := RecvReturns [];
                  on_sendall := SendallReturns |}) with
  | [EvSendall b] => b
  | _ => []
  end.

(** A message as the receive path builds it: never extended, timestamp 0.0. *)
Definition as_received (m : Message) : Message :=
  {| arbitration_id := arbitration_id m;
     data := data m;
     is_extended_id := false;
     timestamp := 0%float |}.

(** What [send] needs of a message for its frame to be a full 13-byte frame. *)
Definition full_frame_message (m : Message) : Prop :=
  length (data m) = 8%nat /\ 0 <= arbitration_id m < 2 ^ 32.

(** What every message built by the receive path satisfies. *)
Definition received_shape (m : Message) : Prop :=
  length (data m) = 8%nat
  /\ 0 <= arbitration_id m < 2 ^ 32
  /\ is_extended_id m = false
  /\ timestamp m = 0%float.

(** The indices of the complete windows of [s] whose head byte passes the
    test [<= 0x08] of the loop. *)
Definition accepted_windows (s : list byte) : list nat :=
  filter
    (fun i =>
       match nth_error s (i * ethcan_message_fixed_len) with
       | Some head => byte_val head <=? ethcan_message_head
       | None => false
       end)
    (seq 0 (length s / ethcan_message_fixed_len)).

(** ** Sample values *)

(** A socket that is readable, delivers [chunk], and accepts every write. *)
Definition delivering (chunk : list byte) : world :=
  {| on_select := SelectReturns true;
     on_recv := RecvReturns chunk;
     on_sendall := SendallReturns |}.

(** A socket whose readiness check raises [exc]. *)
Definition select_failing (exc : exn) : world :=
  {| on_select := SelectRaises exc;
     on_recv := RecvReturns [];
     on_sendall := SendallReturns |}.

Definition msg_123 : Message :=
  {| arbitration_id := 0x123;
     data := [Byte.x01; Byte.x02];
     is_extended_id := false;
     timestamp := 0%float |}.

Definition msg_full : Message :=
  {| arbitration_id := 0x1FFFFFFF;
     data := [Byte.x11; Byte.x22; Byte.x33; Byte.x44;
              Byte.x55; Byte.x66; Byte.x77; Byte.x88];
     is_extended_id := false;
     timestamp := 0%float |}.

(** The wire frame of [msg_full]. *)
Definition frame_full : list byte :=
  [Byte.x08; Byte.x1f; Byte.xff; Byte.xff; Byte.xff;
   Byte.x11; Byte.x22; Byte.x33; Byte.x44;
   Byte.x55; Byte.x66; Byte.x77; Byte.x88].

(** A window whose head byte is [0xFF]. *)
Definition frame_garbage : list byte :=
  [Byte.xff; Byte.x00; Byte.x00; Byte.x00; Byte.x01;
   Byte.xaa; Byte.xbb; Byte.xcc; Byte.xdd;
   Byte.xee; Byte.xff; Byte.x00; Byte.x01].

(** The twelve bytes that follow the head byte in [frame_full]. *)
Definition tail_full : list byte := skipn 1 frame_full.

(** A bus that still holds one decoded message. *)
Definition bus_with_pending : MorphleCanBus :=
  {| message_buffer := [msg_full]; receive_buffer := []; socket_closed := false |}.

(** A second full message, and a socket that is not ready. *)
Definition msg_other : Message :=
  {| arbitration_id := 0x7FF;
     data := [Byte.x00; Byte.x01; Byte.x02; Byte.x03;
              Byte.x04; Byte.x05; Byte.x06; Byte.x07];
     is_extended_id := false;
     timestamp := 0%float |}.

Definition not_ready : world :=
  {| on_select := SelectReturns false;
     on_recv := RecvReturns [];
     on_sendall := SendallReturns |}.

(** A socket whose read raises [exc]. *)
Definition recv_failing (exc : exn) : world :=
  {| on_select := SelectReturns true;
     on_recv := RecvRaises exc;
     on_sendall := SendallReturns |}.

(** A bus in the middle of a frame: three bytes carried over. *)
Definition bus_mid_frame : MorphleCanBus :=
  {| message_buffer := [];
     receive_buffer := [Byte.x08; Byte.x1f; Byte.xff];
     socket_closed := false |}.

(** * Properties *)

(** ** Bytes and the [">BI"] format *)

Lemma byte_val_range (b : byte) : 0 <= byte_val b <= 255.
Proof.
  unfold byte_val. pose proof (Byte.to_N_bounded b). lia.
Qed.

Lemma byte_of_Z_val (z : Z) :
  0 <= z <= 255 -> exists b, byte_of_Z z = Some b /\ byte_val b = z.
Proof.
  intros Hz. unfold byte_of_Z.
  replace ((0 <=? z) && (z <=? 255)) with true
    by (symmetry; apply andb_true_iff; split; apply Z.leb_le; lia).
  destruct (Byte.of_N (Z.to_N z)) as [b|] eqn:E.
  - exists b. split; [reflexivity|].
    apply Byte.to_of_N in E. unfold byte_val. rewrite E. lia.
  - apply Byte.of_N_None_iff in E. lia.
Qed.

Lemma byte_of_Z_byte_val (b : byte) : byte_of_Z (byte_val b) = Some b.
Proof.
  pose proof (byte_val_range b) as Hr. unfold byte_of_Z.
  replace ((0 <=? byte_val b) && (byte_val b <=? 255)) with true
    by (symmetry; apply andb_true_iff; split; apply Z.leb_le; lia).
  unfold byte_val. rewrite N2Z.id. apply Byte.of_to_N.
Qed.

Lemma low_byte_range (x : Z) : 0 <= Z.land x 0xFF <= 255.
Proof.
  change (Z.land x 0xFF) with (Z.land x (Z.ones 8)).
  rewrite Z.land_ones by lia.
  pose proof (Z.mod_pos_bound x (2 ^ 8)). lia.
Qed.

Lemma testbit_low_byte (x n : Z) :
  0 <= n -> Z.testbit (Z.land x 0xFF) n = Z.testbit x n && (n <? 8).
Proof.
  intros Hn. rewrite Z.land_spec. change 0xFF with (Z.ones 8).
  rewrite Z.testbit_ones by lia.
  replace (0 <=? n) with true by (symmetry; apply Z.leb_le; lia).
  reflexivity.
Qed.

(** The four bytes of an unsigned 32-bit integer put it back together. *)
Lemma big_endian_recombine (i : Z) :
  0 <= i < 2 ^ 32 ->
  Z.lor (Z.shiftl (Z.land (Z.shiftr i 24) 0xFF) 24)
    (Z.lor (Z.shiftl (Z.land (Z.shiftr i 16) 0xFF) 16)
       (Z.lor (Z.shiftl (Z.land (Z.shiftr i 8) 0xFF) 8) (Z.land i 0xFF))) = i.
Proof.
  intros Hi. apply Z.bits_inj'. intros n Hn.
  rewrite !Z.lor_spec, !Z.shiftl_spec by lia.
  rewrite (testbit_low_byte i n) by lia.
  destruct (Z.ltb_spec n 8) as [H8|H8].
  { rewrite !(Z.testbit_neg_r _ (n - _)) by lia.
    rewrite andb_true_r. reflexivity. }
  rewrite andb_false_r, orb_false_r.
  destruct (Z.ltb_spec n 16) as [H16|H16].
  { rewrite !(Z.testbit_neg_r _ (n - 16)), !(Z.testbit_neg_r _ (n - 24)) by lia.
    rewrite testbit_low_byte, Z.shiftr_spec by lia.
    replace (n - 8 + 8) with n by lia.
    replace (n - 8 <? 8) with true by (symmetry; apply Z.ltb_lt; lia).
    rewrite andb_true_r. reflexivity. }
  destruct (Z.ltb_spec n 24) as [H24|H24].
  { rewrite !(Z.testbit_neg_r _ (n - 24)) by lia.
    rewrite !testbit_low_byte, !Z.shiftr_spec by lia.
    replace (n - 8 + 8) with n by lia. replace (n - 16 + 16) with n by lia.
    replace (n - 8 <? 8) with false by (symmetry; apply Z.ltb_ge; lia).
    replace (n - 16 <? 8) with true by (symmetry; apply Z.ltb_lt; lia).
    rewrite andb_false_r, andb_true_r, orb_false_r. reflexivity. }
  rewrite !testbit_low_byte, !Z.shiftr_spec by lia.
  replace (n - 8 + 8) with n by lia. replace (n - 16 + 16) with n by lia.
  replace (n - 24 + 24) with n by lia.
  replace (n - 8 <? 8) with false by (symmetry; apply Z.ltb_ge; lia).
  replace (n - 16 <? 8) with false by (symmetry; apply Z.ltb_ge; lia).
  rewrite !andb_false_r, !orb_false_r.
  destruct (Z.ltb_spec (n - 24) 8) as [H32|H32].
  { rewrite andb_true_r. reflexivity. }
  rewrite andb_false_r. symmetry.
  destruct (Z.eq_dec i 0) as [->|Hnz]; [apply Z.bits_0|].
  assert (Z.log2 i < 32) by (apply Z.log2_lt_pow2; lia).
  apply Z.bits_above_log2; lia.
Qed.

(** Packing succeeds on a 32-bit identifier and unpacking inverts it. *)
Lemma pack_unpack_BI (i : Z) :
  0 <= i < 2 ^ 32 ->
  exists b1 b2 b3 b4,
    Struct.pack_BI ethcan_message_head i = Some [Byte.x08; b1; b2; b3; b4]
    /\ Struct.unpack_BI [Byte.x08; b1; b2; b3; b4] = Some (8, i).
Proof.
  intros Hi. unfold Struct.pack_BI.
  replace ((0 <=? i) && (i <=? 0xFFFFFFFF)) with true
    by (symmetry; apply andb_true_iff; split; apply Z.leb_le; lia).
  destruct (byte_of_Z_val _ (low_byte_range (Z.shiftr i 24))) as (b1 & E1 & V1).
  destruct (byte_of_Z_val _ (low_byte_range (Z.shiftr i 16))) as (b2 & E2 & V2).
  destruct (byte_of_Z_val _ (low_byte_range (Z.shiftr i 8))) as (b3 & E3 & V3).
  destruct (byte_of_Z_val _ (low_byte_range i)) as (b4 & E4 & V4).
  exists b1, b2, b3, b4. rewrite E1, E2, E3, E4.
  split; [reflexivity|].
  unfold Struct.unpack_BI. rewrite V1, V2, V3, V4.
  rewrite (big_endian_recombine i Hi). reflexivity.
Qed.

(** ** The reassembly pass *)

Section Reassembly.

Local Open Scope nat_scope.

Lemma bus_eta (self : MorphleCanBus) :
  {| message_buffer := message_buffer self;
     receive_buffer := receive_buffer self;
     socket_closed := socket_closed self |} = self.
Proof. destruct self; reflexivity. Qed.

Lemma decode_frame_total (f : list byte) :
  5 <= length f -> exists m, decode_frame f = Return m.
Proof.
  destruct f as [|b0 [|b1 [|b2 [|b3 [|b4 f]]]]]; cbn [length]; intros H;
    try lia.
  eexists. reflexivity.
Qed.

Lemma window_messages_rejected (h : byte) (f : list byte) :
  (8 < byte_val h)%Z -> window_messages (h :: f) = [].
Proof.
  intros H. cbn [window_messages]. unfold ethcan_message_head.
  destruct (Z.leb_spec (byte_val h) 8); [lia|reflexivity].
Qed.

(** One turn of the loop on a window that lies inside the buffer. *)
Lemma frame_step_spec (i : nat) (self : MorphleCanBus) :
  i * 13 + 13 <= length (receive_buffer self) ->
  frame_step i self =
    (Return tt,
     set_message_buffer
       (message_buffer self
          ++ window_messages (firstn 13 (skipn (i * 13) (receive_buffer self))))
       self).
Proof.
  intros H. unfold frame_step, slice, ethcan_message_fixed_len.
  replace ((i + 1) * 13 - i * 13) with 13 by lia.
  rewrite <- hd_error_skipn.
  destruct (skipn (i * 13) (receive_buffer self)) as [|h tl] eqn:E.
  { apply (f_equal (@length byte)) in E. rewrite length_skipn in E.
    cbn [length] in E. lia. }
  assert (Hl : length (h :: tl) = length (receive_buffer self) - i * 13)
    by (rewrite <- E; apply length_skipn).
  cbn [hd_error]. rewrite firstn_cons. cbn [window_messages].
  destruct (byte_val h <=? ethcan_message_head)%Z.
  - destruct (decode_frame_total (h :: firstn 12 tl)) as [m Hm].
    { cbn [length] in *. rewrite length_firstn. lia. }
    rewrite Hm. reflexivity.
  - rewrite app_nil_r. unfold set_message_buffer. rewrite bus_eta.
    reflexivity.
Qed.

Lemma for_range_seq (n : nat) :
  forall (a : nat) (self : MorphleCanBus),
    (a + n) * 13 <= length (receive_buffer self) ->
    for_range (seq a n) self =
      (Return tt,
       set_message_buffer
         (message_buffer self
            ++ decode_windows n (skipn (a * 13) (receive_buffer self)))
         self).
Proof.
  induction n as [|n IH]; intros a self H.
  - cbn [seq for_range decode_windows]. rewrite app_nil_r.
    unfold set_message_buffer. rewrite bus_eta. reflexivity.
  - cbn [seq for_range]. rewrite frame_step_spec by lia.
    rewrite IH by (cbn [receive_buffer set_message_buffer]; lia).
    cbn [decode_windows]. unfold ethcan_message_fixed_len.
    rewrite skipn_skipn. replace (13 + a * 13) with (S a * 13) by lia.
    unfold set_message_buffer. cbn [message_buffer receive_buffer socket_closed].
    rewrite <- app_assoc. reflexivity.
Qed.

(** The pass never raises; it appends the messages of the complete windows
    and keeps what follows them. *)
Lemma feed_spec (msg : list byte) (self : MorphleCanBus) :
  let s := receive_buffer self ++ msg in
  feed msg self =
    (Return tt,
     {| message_buffer :=
          message_buffer self ++ decode_windows (length s / 13) s;
        receive_buffer := skipn (length s / 13 * 13) s;
        socket_closed := socket_closed self |}).
Proof.
  intros s. unfold feed, ethcan_message_fixed_len.
  cbn [receive_buffer set_receive_buffer]. fold s.
  rewrite for_range_seq.
  - cbn [receive_buffer set_receive_buffer set_message_buffer skipn].
    reflexivity.
  - cbn [receive_buffer set_receive_buffer]. fold s.
    pose proof (Nat.Div0.mul_div_le (length s) 13). lia.
Qed.

Lemma decode_windows_app (k m : nat) :
  forall p q : list byte,
    length p = k * 13 ->
    decode_windows (k + m) (p ++ q) = decode_windows k p ++ decode_windows m q.
Proof.
  induction k as [|k IH]; intros p q Hp.
  - destruct p; [reflexivity|discriminate].
  - cbn [Nat.add decode_windows]. unfold ethcan_message_fixed_len.
    rewrite firstn_app, skipn_app.
    replace (13 - length p) with 0 by lia.
    rewrite firstn_0, skipn_0, app_nil_r.
    rewrite IH by (rewrite length_skipn; lia).
    rewrite app_assoc. reflexivity.
Qed.

Lemma decode_windows_whole (k : nat) (p r : list byte) :
  length p = k * 13 -> decode_windows k (p ++ r) = decode_windows k p.
Proof.
  intros Hp. rewrite <- (Nat.add_0_r k) at 1.
  rewrite decode_windows_app by exact Hp.
  cbn [decode_windows]. apply app_nil_r.
Qed.

Lemma leftover_short (s : list byte) : length (skipn (length s / 13 * 13) s) < 13.
Proof.
  rewrite length_skipn.
  pose proof (Nat.div_mod_eq (length s) 13).
  pose proof (Nat.mod_upper_bound (length s) 13). lia.
Qed.

Lemma quotient_split (k : nat) (p q : list byte) :
  length p = k * 13 -> length (p ++ q) / 13 = k + length q / 13.
Proof.
  intros Hp. rewrite length_app, Hp, Nat.add_comm.
  rewrite Nat.div_add by lia. lia.
Qed.

(** A pass over [c1 ++ c2] is a pass over [c1] followed by one over [c2]. *)
Lemma feed_app (c1 c2 : list byte) (self : MorphleCanBus) :
  feed (c1 ++ c2) self = feed c2 (snd (feed c1 self)).
Proof.
  rewrite !feed_spec. cbn [snd message_buffer receive_buffer socket_closed].
  set (s1 := receive_buffer self ++ c1).
  set (k1 := length s1 / 13).
  assert (Hp : length (firstn (k1 * 13) s1) = k1 * 13).
  { rewrite length_firstn. pose proof (Nat.Div0.mul_div_le (length s1) 13).
    fold k1 in H. lia. }
  assert (Hs : receive_buffer self ++ c1 ++ c2
               = firstn (k1 * 13) s1 ++ (skipn (k1 * 13) s1 ++ c2)).
  { rewrite !app_assoc. rewrite firstn_skipn. reflexivity. }
  rewrite Hs. set (s2 := skipn (k1 * 13) s1 ++ c2).
  rewrite (quotient_split k1) by exact Hp.
  rewrite decode_windows_app by exact Hp.
  rewrite <- (firstn_skipn (k1 * 13) s1) at 3.
  rewrite decode_windows_whole by exact Hp.
  rewrite skipn_app, Hp.
  rewrite skipn_all2 by lia.
  replace ((k1 + length s2 / 13) * 13 - k1 * 13) with (length s2 / 13 * 13)
    by lia.
  rewrite app_assoc. reflexivity.
Qed.

Lemma feed_short_nil (self : MorphleCanBus) :
  length (receive_buffer self) < 13 -> feed [] self = (Return tt, self).
Proof.
  intros H. rewrite feed_spec. rewrite app_nil_r.
  rewrite Nat.div_small by exact H.
  cbn [decode_windows Nat.mul skipn]. rewrite app_nil_r, bus_eta. reflexivity.
Qed.

(** However the stream is cut into chunks, the passes end in the state of
    the single pass over the whole stream. *)
Lemma feed_all_concat (chunks : list (list byte)) :
  forall self : MorphleCanBus,
    length (receive_buffer self) < 13 ->
    feed_all chunks self = feed (concat chunks) self.
Proof.
  induction chunks as [|c cs IH]; intros self H.
  - cbn [feed_all concat]. symmetry. apply feed_short_nil. exact H.
  - cbn [feed_all concat]. rewrite feed_app.
    rewrite (feed_spec c self). cbn [snd].
    apply IH. cbn [receive_buffer]. apply leftover_short.
Qed.

End Reassembly.

Lemma decoded_eq (s : list byte) :
  decoded s = decode_windows (length s / 13) s.
Proof. unfold decoded. rewrite feed_spec. reflexivity. Qed.

Lemma leftover_eq (s : list byte) :
  leftover s = skipn (length s / 13 * 13) s.
Proof. unfold leftover. rewrite feed_spec. reflexivity. Qed.

(** ** Wire format *)

(** C1. For every message with an 8-byte payload and an arbitration ID
    below 2^32, [send] writes a 13-byte frame (head byte, big-endian
    identifier, payload), and the receive side decodes that frame into a
    message with the same arbitration ID and the same eight payload bytes:
    both the decoding of the window and a whole [_recv_internal] call on a bus
    with empty buffers that reads the frame from the socket. *)
Theorem send_recv_roundtrip
    (m : Message) (self : MorphleCanBus) (timeout : option float) (w : world) :
  length (data m) = 8%nat ->
  0 <= arbitration_id m < 2 ^ 32 ->
  exists (frame : list byte) (m' : Message),
    snd (send self m timeout w) = [EvSendall frame]
    /\ length frame = 13%nat
    /\ decode_frame frame = Return m'
    /\ arbitration_id m' = arbitration_id m
    /\ data m' = data m
    /\ _recv_internal new_bus timeout (delivering frame)
       = (Return (Some m', false), new_bus, [EvSelect timeout; EvRecv 1024]).
Proof.
  intros Hlen Hid.
  destruct (pack_unpack_BI _ Hid) as (b1 & b2 & b3 & b4 & Hpack & Hunpack).
  destruct m as [aid d ext ts]. cbn [arbitration_id data] in *.
  destruct d as [|d0 [|d1 [|d2 [|d3 [|d4 [|d5 [|d6 [|d7 [|d8 d]]]]]]]]];
    try discriminate Hlen.
  set (frame := [Byte.x08; b1; b2; b3; b4] ++ [d0; d1; d2; d3; d4; d5; d6; d7]).
  set (m' := {| arbitration_id := aid;
                data := [d0; d1; d2; d3; d4; d5; d6; d7];
                is_extended_id := false;
                timestamp := 0%float |}).
  assert (Hdec : decode_frame frame = Return m').
  { unfold decode_frame, frame. cbn [app firstn skipn].
    rewrite Hunpack. reflexivity. }
  exists frame, m'. repeat split.
  - unfold send. cbn [arbitration_id data]. rewrite Hpack.
    unfold _tcp_send. destruct (on_sendall w); reflexivity.
  - exact Hdec.
  - unfold _recv_internal. cbn [message_buffer new_bus on_select on_recv delivering].
    rewrite feed_spec. cbn [receive_buffer new_bus app message_buffer].
    change (length frame / 13)%nat with 1%nat.
    cbn [decode_windows]. unfold ethcan_message_fixed_len.
    change (firstn 13 frame) with frame.
    unfold window_messages. rewrite Hdec. unfold frame at 1.
    cbn [app]. change (byte_val Byte.x08 <=? ethcan_message_head) with true.
    cbn iota. reflexivity.
Qed.

Lemma send_recv_roundtrip_witness :
  exists (frame : list byte) (m' : Message),
    snd (send new_bus msg_full None (delivering [])) = [EvSendall frame]
    /\ length frame = 13%nat
    /\ decode_frame frame = Return m'
    /\ arbitration_id m' = arbitration_id msg_full
    /\ data m' = data msg_full
    /\ _recv_internal new_bus None (delivering frame)
       = (Return (Some m', false), new_bus, [EvSelect None; EvRecv 1024]).
Proof.
  apply (send_recv_roundtrip msg_full new_bus None (delivering [])).
  - reflexivity.
  - cbn [arbitration_id msg_full]. lia.
Defined.

(** C2 as stated fails: for arbitration ID 0x123 and data [01 02], the bytes
    handed to the socket are not the 13-byte sequence
    08 00 00 01 23 01 02 00 00 00 00 00 00. *)
Lemma send_123_not_padded :
  snd (send new_bus msg_123 None (delivering []))
  <> [EvSendall [Byte.x08; Byte.x00; Byte.x00; Byte.x01; Byte.x23;
                 Byte.x01; Byte.x02; Byte.x00; Byte.x00; Byte.x00;
                 Byte.x00; Byte.x00; Byte.x00]].
Proof. vm_compute. discriminate. Qed.

(** C2, amended. Sending arbitration ID 0x123 with data [01 02] writes to the
    socket exactly the 7-byte sequence 08 00 00 01 23 01 02: the head byte, the
    big-endian identifier and the payload as it is, without padding. *)
Theorem send_123_wire_bytes
    (self : MorphleCanBus) (timeout : option float) (w : world) :
  snd (send self msg_123 timeout w)
  = [EvSendall [Byte.x08; Byte.x00; Byte.x00; Byte.x01; Byte.x23;
                Byte.x01; Byte.x02]].
Proof.
  unfold send.
  change (Struct.pack_BI ethcan_message_head (arbitration_id msg_123))
    with (Some [Byte.x08; Byte.x00; Byte.x00; Byte.x01; Byte.x23]).
  cbn [data msg_123 app]. unfold _tcp_send.
  destruct (on_sendall w); reflexivity.
Qed.

(** ** Frame reassembly *)

(** C3. Whatever the carry-over buffer holds and whatever chunk a receive
    pass appends, the pass completes without raising, the carry-over buffer
    it leaves is shorter than 13 bytes, and it is exactly what follows the
    complete 13-byte slices of the appended stream, so that the stream is the
    consumed slices followed by the new carry-over buffer. *)
Theorem carry_over_invariant (self : MorphleCanBus) (chunk : list byte) :
  let s := receive_buffer self ++ chunk in
  exists self' : MorphleCanBus,
    feed chunk self = (Return tt, self')
    /\ (length (receive_buffer self') < 13)%nat
    /\ receive_buffer self' = skipn (length s / 13 * 13) s
    /\ exists consumed : list byte,
         s = consumed ++ receive_buffer self'
         /\ length consumed = (length s / 13 * 13)%nat.
Proof.
  intros s. eexists. split; [apply feed_spec|].
  cbn [receive_buffer]. fold s. split; [apply leftover_short|].
  split; [reflexivity|].
  exists (firstn (length s / 13 * 13) s). split.
  - symmetry. apply firstn_skipn.
  - rewrite length_firstn.
    pose proof (Nat.Div0.mul_div_le (length s) 13). lia.
Qed.

(** C4. Starting from an empty carry-over buffer, feeding a byte sequence
    one byte per call leaves the bus in the state one call with the whole
    sequence leaves it in: the same decoded messages in the same order in the
    queue, and the same carry-over buffer. *)
Theorem feed_bytewise_eq_feed_whole
    (bs : list byte) (queue : list Message) (closed : bool) :
  let self := {| message_buffer := queue;
                 receive_buffer := [];
                 socket_closed := closed |} in
  feed_all (map (fun b => [b]) bs) self = feed bs self.
Proof.
  intros self. rewrite feed_all_concat by (cbn; lia).
  f_equal. induction bs as [|b bs IH]; [reflexivity|].
  cbn [map concat app]. rewrite IH. reflexivity.
Qed.

(** C5. A 13-byte window that starts at a 13-byte boundary and whose first
    byte exceeds 0x08 contributes no message; the pass does not raise and goes
    on 13 bytes further: the messages it decodes are those of the windows
    before followed by those of the bytes after, the carry-over buffer is the
    one the bytes after leave, and [_recv_internal] returns normally with the
    first of these messages, if any. *)
Theorem invalid_window_skipped
    (self : MorphleCanBus) (timeout : option float) (chunk : list byte)
    (pre win rest : list byte) (k : nat) (h : byte) :
  message_buffer self = [] ->
  receive_buffer self ++ chunk = pre ++ win ++ rest ->
  length pre = (k * 13)%nat ->
  length win = 13%nat ->
  hd_error win = Some h ->
  8 < byte_val h ->
  decoded win = []
  /\ feed chunk self
     = (Return tt,
        {| message_buffer := decoded pre ++ decoded rest;
           receive_buffer := leftover rest;
           socket_closed := socket_closed self |})
  /\ exists (r : option Message) (self' : MorphleCanBus),
       _recv_internal self timeout (delivering chunk)
       = (Return (r, false), self', [EvSelect timeout; EvRecv 1024])
       /\ receive_buffer self' = leftover rest
       /\ match r with
          | Some m => m :: message_buffer self'
          | None => message_buffer self'
          end = decoded pre ++ decoded rest.
Proof.
  intros Hq Hs Hpre Hwin Hh Hbad.
  assert (Hw1 : decode_windows 1 win = []).
  { cbn [decode_windows]. unfold ethcan_message_fixed_len.
    rewrite firstn_all2 by lia. destruct win as [|h' tl]; [discriminate|].
    injection Hh as ->. rewrite window_messages_rejected by exact Hbad.
    reflexivity. }
  assert (Hfeed : feed chunk self
     = (Return tt,
        {| message_buffer := decoded pre ++ decoded rest;
           receive_buffer := leftover rest;
           socket_closed := socket_closed self |})).
  { rewrite feed_spec. cbv zeta. rewrite Hs, Hq.
    rewrite (quotient_split k) by exact Hpre.
    rewrite (quotient_split 1) by exact Hwin.
    rewrite decode_windows_app by exact Hpre.
    rewrite (decode_windows_app 1) by exact Hwin.
    rewrite Hw1. rewrite !decoded_eq, leftover_eq.
    rewrite Hpre, Nat.div_mul by lia.
    rewrite skipn_app, skipn_all2 by lia.
    rewrite skipn_app, skipn_all2 by lia.
    replace ((k + (1 + length rest / 13)) * 13 - length pre - length win)%nat
      with (length rest / 13 * 13)%nat by lia.
    reflexivity. }
  split; [|split].
  - rewrite decoded_eq, Hwin. exact Hw1.
  - exact Hfeed.
  - unfold _recv_internal. rewrite Hq.
    cbn [on_select on_recv delivering]. rewrite Hfeed.
    cbn [message_buffer].
    destruct (decoded pre ++ decoded rest) as [|m ms].
    + exists None. eexists. split; [reflexivity|]. split; reflexivity.
    + exists (Some m). eexists. split; [reflexivity|]. split; reflexivity.
Qed.

Lemma invalid_window_skipped_witness :
  decoded frame_garbage = []
  /\ feed (frame_full ++ frame_garbage ++ frame_full ++ [Byte.x08; Byte.x00])
       new_bus
     = (Return tt,
        {| message_buffer :=
             decoded frame_full ++ decoded (frame_full ++ [Byte.x08; Byte.x00]);
           receive_buffer := leftover (frame_full ++ [Byte.x08; Byte.x00]);
           socket_closed := false |})
  /\ exists (r : option Message) (self' : MorphleCanBus),
       _recv_internal new_bus None
         (delivering
            (frame_full ++ frame_garbage ++ frame_full ++ [Byte.x08; Byte.x00]))
       = (Return (r, false), self', [EvSelect None; EvRecv 1024])
       /\ receive_buffer self' = leftover (frame_full ++ [Byte.x08; Byte.x00])
       /\ match r with
          | Some m => m :: message_buffer self'
          | None => message_buffer self'
          end
          = decoded frame_full ++ decoded (frame_full ++ [Byte.x08; Byte.x00]).
Proof.
  apply (invalid_window_skipped new_bus None
           (frame_full ++ frame_garbage ++ frame_full ++ [Byte.x08; Byte.x00])
           frame_full frame_garbage (frame_full ++ [Byte.x08; Byte.x00])
           1%nat Byte.xff).
  - reflexivity.
  - reflexivity.
  - reflexivity.
  - reflexivity.
  - reflexivity.
  - vm_compute. reflexivity.
Defined.

(** The same stream evaluated: both valid frames around the rejected window
    are decoded and the two trailing bytes stay in the carry-over buffer. *)
Example garbage_between_frames :
  feed (frame_full ++ frame_garbage ++ frame_full ++ [Byte.x08; Byte.x00])
    new_bus
  = (Return tt,
     {| message_buffer := [msg_full; msg_full];
        receive_buffer := [Byte.x08; Byte.x00];
        socket_closed := false |}).
Proof. vm_compute. reflexivity. Qed.

(** C9. Two 13-byte windows that agree on bytes 1 to 12 and whose first
    bytes are both at most 0x08 decode to the same single message: every head
    value from 0x00 to 0x08 is accepted, the arbitration ID is the big-endian
    value of bytes 1 to 4 and the data are bytes 5 to 12, whatever the head
    byte. *)
Theorem head_byte_irrelevant (h1 h2 : byte) (tail : list byte) :
  length tail = 12%nat ->
  byte_val h1 <= 8 ->
  byte_val h2 <= 8 ->
  exists m : Message,
    decoded (h1 :: tail) = [m]
    /\ decoded (h2 :: tail) = [m]
    /\ data m = skipn 4 tail
    /\ forall h : byte,
         Struct.unpack_BI (h :: firstn 4 tail)
         = Some (byte_val h, arbitration_id m).
Proof.
  intros Hlen H1 H2.
  destruct tail as [|b1 [|b2 [|b3 [|b4 tail]]]]; try discriminate Hlen.
  cbn [length] in Hlen.
  assert (Hone : forall h : byte,
             byte_val h <= 8 ->
             decoded (h :: b1 :: b2 :: b3 :: b4 :: tail)
             = [{| arbitration_id :=
                     Z.lor (Z.shiftl (byte_val b1) 24)
                       (Z.lor (Z.shiftl (byte_val b2) 16)
                          (Z.lor (Z.shiftl (byte_val b3) 8) (byte_val b4)));
                   data := tail;
                   is_extended_id := false;
                   timestamp := 0%float |}]).
  { intros h Hh. rewrite decoded_eq.
    replace (length (h :: b1 :: b2 :: b3 :: b4 :: tail)) with 13%nat
      by (cbn [length]; lia).
    change (13 / 13)%nat with 1%nat. cbn [decode_windows].
    unfold ethcan_message_fixed_len.
    rewrite firstn_all2 by (cbn [length]; lia).
    cbn [window_messages]. unfold ethcan_message_head.
    destruct (Z.leb_spec (byte_val h) 8) as [_|Hgt]; [|lia].
    reflexivity. }
  eexists. split; [apply Hone; exact H1|].
  split; [apply Hone; exact H2|].
  split; reflexivity.
Qed.

Lemma head_byte_irrelevant_witness :
  exists m : Message,
    decoded (Byte.x00 :: tail_full) = [m]
    /\ decoded (Byte.x08 :: tail_full) = [m]
    /\ data m = skipn 4 tail_full
    /\ forall h : byte,
         Struct.unpack_BI (h :: firstn 4 tail_full)
         = Some (byte_val h, arbitration_id m).
Proof.
  apply (head_byte_irrelevant Byte.x00 Byte.x08 tail_full).
  - reflexivity.
  - vm_compute. discriminate.
  - vm_compute. discriminate.
Defined.

(** Head byte 0x00 in front of the bytes of [frame_full] gives [msg_full]. *)
Example head_zero_accepted : decoded (Byte.x00 :: tail_full) = [msg_full].
Proof. vm_compute. reflexivity. Qed.

(** ** Error paths of the transport *)

(** C6 as stated fails: after [shutdown], a [_recv_internal] call on a bus
    that still holds a decoded message returns that message, and [send] on
    the closed bus hands its bytes to [sendall] on the socket. *)
Lemma calls_after_shutdown_proceed :
  _recv_internal (fst (shutdown bus_with_pending)) None (delivering [])
  = (Return (Some msg_full, false), fst (shutdown new_bus), [])
  /\ send (fst (shutdown new_bus)) msg_123 None (delivering [])
     = (Return tt,
        [EvSendall [Byte.x08; Byte.x00; Byte.x00; Byte.x01; Byte.x23;
                    Byte.x01; Byte.x02]]).
Proof. split; vm_compute; reflexivity. Qed.

(** C6, amended. After [shutdown] the bus keeps no record of being closed
    that its methods consult.  A receive call with a non-empty queue returns
    the oldest message with no socket call.  With an empty queue it starts
    with the readiness check on the socket, and when that check raises, the
    call fails with that exception, wrapped in [CanError] when it is an
    [OSError].  [send] of a message whose identifier fits 32 bits hands the
    encoded bytes to [sendall] and fails exactly when [sendall] raises, with
    that exception. *)
Theorem after_shutdown_methods_reach_socket
    (self : MorphleCanBus) (timeout : option float) (w : world)
    (msg : Message) :
  let closed := fst (shutdown self) in
  socket_closed closed = true
  /\ (forall m q,
        message_buffer self = m :: q ->
        _recv_internal closed timeout w
        = (Return (Some m, false), set_message_buffer q closed, []))
  /\ (message_buffer self = [] ->
      exists r s io,
        _recv_internal closed timeout w = (r, s, EvSelect timeout :: io))
  /\ (forall exc,
        message_buffer self = [] ->
        on_select w = SelectRaises exc ->
        _recv_internal closed timeout w
        = (Raise (if is_OSError exc then CanError exc else exc),
           closed, [EvSelect timeout]))
  /\ (0 <= arbitration_id msg < 2 ^ 32 ->
      exists header,
        Struct.pack_BI ethcan_message_head (arbitration_id msg) = Some header
        /\ send closed msg timeout w
           = (match on_sendall w with
              | SendallReturns => Return tt
              | SendallRaises e => Raise e
              end,
              [EvSendall (header ++ data msg)])).
Proof.
  intros closed. split; [reflexivity|]. split; [|split; [|split]].
  - intros m q Hq. unfold _recv_internal, closed.
    cbn [shutdown fst message_buffer]. rewrite Hq. reflexivity.
  - intros Hq. unfold _recv_internal, closed.
    cbn [shutdown fst message_buffer]. rewrite Hq.
    destruct (on_select w) as [[|]|exc].
    + destruct (on_recv w) as [chunk|exc].
      * destruct (feed chunk _) as [[[]|exc] s].
        -- destruct (message_buffer s); do 3 eexists; reflexivity.
        -- do 3 eexists; reflexivity.
      * do 3 eexists; reflexivity.
    + do 3 eexists; reflexivity.
    + destruct (is_OSError exc); do 3 eexists; reflexivity.
  - intros exc Hq Hsel. unfold _recv_internal, closed.
    cbn [shutdown fst message_buffer]. rewrite Hq, Hsel.
    destruct (is_OSError exc); reflexivity.
  - intros Hid.
    destruct (pack_unpack_BI _ Hid) as (b1 & b2 & b3 & b4 & Hpack & _).
    eexists. split; [exact Hpack|].
    unfold send. rewrite Hpack. unfold _tcp_send.
    destruct (on_sendall w); reflexivity.
Qed.

Lemma after_shutdown_methods_reach_socket_witness :
  _recv_internal (fst (shutdown bus_with_pending)) None
    (select_failing (ValueError "closed"))
  = (Return (Some msg_full, false),
     set_message_buffer [] (fst (shutdown bus_with_pending)), [])
  /\ _recv_internal (fst (shutdown new_bus)) None
       (select_failing (ValueError "closed"))
     = (Raise (ValueError "closed"), fst (shutdown new_bus), [EvSelect None])
  /\ exists header,
       Struct.pack_BI ethcan_message_head (arbitration_id msg_123) = Some header
       /\ send (fst (shutdown new_bus)) msg_123 None
            (select_failing (ValueError "closed"))
          = (Return tt, [EvSendall (header ++ data msg_123)]).
Proof.
  split; [|split].
  - apply (proj1 (proj2 (after_shutdown_methods_reach_socket
                           bus_with_pending None
                           (select_failing (ValueError "closed")) msg_123))
             msg_full []).
    reflexivity.
  - apply (proj1 (proj2 (proj2 (proj2 (after_shutdown_methods_reach_socket
                           new_bus None
                           (select_failing (ValueError "closed")) msg_123))))
             (ValueError "closed")); reflexivity.
  - apply (proj2 (proj2 (proj2 (proj2 (after_shutdown_methods_reach_socket
                           new_bus None
                           (select_failing (ValueError "closed")) msg_123))))).
    cbn [arbitration_id msg_123]. lia.
Defined.

(** C7 as stated fails: with an empty queue, a ready socket and a read of
    zero bytes, [_recv_internal] returns [(None, False)] and raises nothing. *)
Lemma zero_byte_read_is_not_an_error :
  _recv_internal new_bus None (delivering [])
  = (Return (None, false), new_bus, [EvSelect None; EvRecv 1024]).
Proof. vm_compute. reflexivity. Qed.

(** C7, amended. When the decoded-message queue is empty, the carry-over
    buffer is shorter than one frame, the socket reports ready and the read
    returns zero bytes, [_recv_internal] returns the normal result
    [(None, False)] and leaves the bus as it was. *)
Theorem zero_byte_read_returns_none
    (self : MorphleCanBus) (timeout : option float) (w : world) :
  message_buffer self = [] ->
  (length (receive_buffer self) < 13)%nat ->
  on_select w = SelectReturns true ->
  on_recv w = RecvReturns [] ->
  _recv_internal self timeout w
  = (Return (None, false), self, [EvSelect timeout; EvRecv 1024]).
Proof.
  intros Hq Hshort Hsel Hrecv. unfold _recv_internal.
  rewrite Hq, Hsel, Hrecv, feed_short_nil by exact Hshort.
  rewrite Hq. reflexivity.
Qed.

Lemma zero_byte_read_returns_none_witness :
  _recv_internal
    {| message_buffer := [];
       receive_buffer := [Byte.x08; Byte.x00; Byte.x00];
       socket_closed := false |}
    None (delivering [])
  = (Return (None, false),
     {| message_buffer := [];
        receive_buffer := [Byte.x08; Byte.x00; Byte.x00];
        socket_closed := false |},
     [EvSelect None; EvRecv 1024]).
Proof.
  apply (zero_byte_read_returns_none
           {| message_buffer := [];
              receive_buffer := [Byte.x08; Byte.x00; Byte.x00];
              socket_closed := false |}
           None (delivering [])).
  - reflexivity.
  - cbn [receive_buffer length]. lia.
  - reflexivity.
  - reflexivity.
Defined.

(** C10. When the readiness check of a receive call raises an [OSError],
    which happens only with an empty queue, the call raises [CanError] after
    that single socket call and the bus is unchanged: the carry-over buffer
    and the queue are what they were.  Whenever a call in which the check
    answers with an [OSError] raises at all, it is in this way. *)
Theorem select_error_leaves_state
    (self : MorphleCanBus) (timeout : option float) (w : world) (exc : exn) :
  on_select w = SelectRaises exc ->
  is_OSError exc = true ->
  (message_buffer self = [] ->
   _recv_internal self timeout w
   = (Raise (CanError exc), self, [EvSelect timeout]))
  /\ (forall e self' io,
        _recv_internal self timeout w = (Raise e, self', io) ->
        e = CanError exc /\ self' = self /\ io = [EvSelect timeout]).
Proof.
  intros Hsel Hos. unfold _recv_internal. rewrite Hsel, Hos. split.
  - intros ->. reflexivity.
  - intros e self' io. destruct (message_buffer self).
    + intros H. injection H as <- <- <-. repeat split.
    + intros H. discriminate H.
Qed.

Lemma select_error_leaves_state_witness :
  _recv_internal
    {| message_buffer := [];
       receive_buffer := [Byte.x08; Byte.x00; Byte.x00];
       socket_closed := false |}
    None (select_failing (OSError "Network is down"))
  = (Raise (CanError (OSError "Network is down")),
     {| message_buffer := [];
        receive_buffer := [Byte.x08; Byte.x00; Byte.x00];
        socket_closed := false |},
     [EvSelect None]).
Proof.
  apply (proj1 (select_error_leaves_state
                  {| message_buffer := [];
                     receive_buffer := [Byte.x08; Byte.x00; Byte.x00];
                     socket_closed := false |}
                  None (select_failing (OSError "Network is down"))
                  (OSError "Network is down") eq_refl eq_refl)).
  reflexivity.
Defined.

(** ** Connecting *)

Section RetryLoop.

Variable end_time : float.

Local Open Scope float_scope.

(** How the retry loop ends, by what the environment does: it returns at
    the first attempt that connects when every reading before it is below
    [end_time]; it raises [TimeoutError] at the first reading that is not;
    it is still retrying when the script holds refusals with readings below
    [end_time] only. *)
Lemma retry_loop_outcomes (script : list attempt) :
  forall now : float,
    let out := retry_loop now end_time script in
    (fst out = Some (Return tt)
     /\ (now <? end_time) = true
     /\ exists pre post,
          script = (pre ++ Connects :: post)%list
          /\ forallb (in_window end_time) pre = true
          /\ snd out = S (length pre))
    \/ (fst out = Some (Raise (TimeoutError timeout_message))
        /\ ((now <? end_time) = false /\ snd out = O
            \/ (now <? end_time) = true
               /\ exists pre e t post,
                    script = (pre ++ Refused e t :: post)%list
                    /\ forallb (in_window end_time) pre = true
                    /\ (t * 1000 <? end_time) = false
                    /\ snd out = S (length pre)))
    \/ (fst out = None
        /\ (now <? end_time) = true
        /\ forallb (in_window end_time) script = true
        /\ snd out = length script).
Proof.
  induction script as [|a script' IH]; intros now.
  - cbn [retry_loop]. destruct (now <? end_time) eqn:Hnow; cbn [fst snd].
    + right; right. repeat split.
    + right; left. split; [reflexivity|]. left. split; reflexivity.
  - cbn [retry_loop]. destruct (now <? end_time) eqn:Hnow.
    2:{ cbn [fst snd]. right; left. split; [reflexivity|].
        left. split; reflexivity. }
    destruct a as [|e t].
    { cbn [fst snd]. left. split; [reflexivity|]. split; [reflexivity|].
      exists nil, script'. repeat split. }
    specialize (IH (t * 1000)).
    destruct (retry_loop (t * 1000) end_time script') as [r n].
    cbn [fst snd] in *.
    destruct IH as [(Hr & Ht & pre & post & Hs & Hpre & Hn)
                   |[(Hr & [(Ht & Hn)
                            |(Ht & pre & e' & t' & post & Hs & Hpre & Ht' & Hn)])
                    |(Hr & Ht & Hall & Hn)]].
    + left. split; [exact Hr|]. split; [reflexivity|].
      exists (Refused e t :: pre), post. subst script'. split; [reflexivity|].
      cbn [forallb in_window length]. rewrite Ht, Hpre, Hn. repeat split.
    + right; left. split; [exact Hr|]. right. split; [reflexivity|].
      exists nil, e, t, script'. cbn [app forallb length]. rewrite Hn.
      repeat split. exact Ht.
    + right; left. split; [exact Hr|]. right. split; [reflexivity|].
      exists (Refused e t :: pre), e', t', post. subst script'.
      cbn [app forallb in_window length]. rewrite Ht, Hpre, Hn.
      repeat split. exact Ht'.
    + right; right. split; [exact Hr|]. split; [reflexivity|].
      cbn [forallb in_window length]. rewrite Ht, Hall, Hn. repeat split.
Qed.

End RetryLoop.

(** C8. [connect_to_server] tries to connect again and again, each failed
    attempt followed at once by a clock reading and the next test of the
    deadline, which lies 10000 ms after the first reading.  While the
    environment keeps answering it ends in one of two ways only: it returns
    normally at the first attempt that succeeds, when every reading until
    then was before the deadline, or it raises [TimeoutError] at the first
    reading that is not before the deadline.  It is still retrying only when
    every attempt so far was refused before the deadline.  The number counts
    the connect attempts made. *)
Theorem connect_to_server_outcomes (t0 : float) (script : list attempt) :
  let now := (t0 * 1000)%float in
  let end_time := (now + timeout_ms)%float in
  let out := connect_to_server t0 script in
  (fst out = Some (Return tt)
   /\ (now <? end_time)%float = true
   /\ exists pre post,
        script = pre ++ Connects :: post
        /\ forallb (in_window end_time) pre = true
        /\ snd out = S (length pre))
  \/ (fst out = Some (Raise (TimeoutError timeout_message))
      /\ ((now <? end_time)%float = false /\ snd out = O
          \/ (now <? end_time)%float = true
             /\ exists pre e t post,
                  script = pre ++ Refused e t :: post
                  /\ forallb (in_window end_time) pre = true
                  /\ (t * 1000 <? end_time)%float = false
                  /\ snd out = S (length pre)))
  \/ (fst out = None
      /\ (now <? end_time)%float = true
      /\ forallb (in_window end_time) script = true
      /\ snd out = length script).
Proof.
  intros now end_time out. unfold out, connect_to_server.
  apply retry_loop_outcomes.
Qed.

(** The first reading is 100 s: two refusals inside the window, then the
    third attempt connects. *)
Example connect_third_attempt :
  connect_to_server 100%float
    [Refused (OSError "Connection refused") 101.5%float;
     Refused (OSError "Connection refused") 109.75%float;
     Connects]
  = (Some (Return tt), 3%nat).
Proof. vm_compute. reflexivity. Qed.

(** The second refusal is read 10.5 s after the start: no third attempt. *)
Example connect_times_out :
  connect_to_server 100%float
    [Refused (OSError "Connection refused") 101.5%float;
     Refused (OSError "Connection refused") 110.5%float;
     Connects]
  = (Some (Raise (TimeoutError timeout_message)), 2%nat).
Proof. vm_compute. reflexivity. Qed.

(** A reading of exactly 10000 ms after the first one already ends the
    loop, since its test is [now < end_time]. *)
Example connect_deadline_reached :
  connect_to_server 100%float
    [Refused (OSError "Connection refused") 110%float; Connects]
  = (Some (Raise (TimeoutError timeout_message)), 1%nat).
Proof. vm_compute. reflexivity. Qed.

(** * Further properties of the module *)

(** ** What [send] writes *)

Lemma send_io_only_message
    (self : MorphleCanBus) (m : Message) (timeout : option float) (w : world) :
  snd (send self m timeout w) =
    match Struct.pack_BI ethcan_message_head (arbitration_id m) with
    | Some header => [EvSendall (header ++ data m)]
    | None => []
    end.
Proof.
  unfold send.
  destruct (Struct.pack_BI ethcan_message_head (arbitration_id m));
    [|reflexivity].
  unfold _tcp_send. destruct (on_sendall w); reflexivity.
Qed.

(** X1. A message whose arbitration ID is negative or does not fit 32 bits
    makes [send] raise [struct.error] before any socket call: nothing is
    written. *)
Theorem send_rejects_wide_id
    (self : MorphleCanBus) (m : Message) (timeout : option float) (w : world) :
  arbitration_id m < 0 \/ 2 ^ 32 <= arbitration_id m ->
  send self m timeout w = (Raise StructError, []).
Proof.
  intros Hid. unfold send, Struct.pack_BI.
  replace ((0 <=? arbitration_id m) && (arbitration_id m <=? 0xFFFFFFFF))
    with false; [reflexivity|].
  symmetry. apply andb_false_iff.
  destruct Hid as [Hneg|Hbig]; [left; apply Z.leb_gt|right; apply Z.leb_gt];
    lia.
Qed.

Lemma send_rejects_wide_id_witness :
  send new_bus
    {| arbitration_id := 2 ^ 32;
       data := [Byte.x01];
       is_extended_id := true;
       timestamp := 0%float |}
    None not_ready
  = (Raise StructError, []).
Proof.
  apply (send_rejects_wide_id new_bus
           {| arbitration_id := 2 ^ 32;
              data := [Byte.x01];
              is_extended_id := true;
              timestamp := 0%float |} None not_ready).
  right. cbn [arbitration_id]. lia.
Defined.

(** X2. For an arbitration ID that fits 32 bits, [send] makes exactly one
    socket call, [sendall] of the head byte 0x08, four bytes that unpack to
    the identifier, and the payload as given: 5 bytes more than the payload,
    whatever its length, and whatever the fields [is_extended_id] and
    [timestamp].  The call returns when [sendall] does and raises what
    [sendall] raises. *)
Theorem send_frame_shape
    (self : MorphleCanBus) (m : Message) (timeout : option float) (w : world) :
  0 <= arbitration_id m < 2 ^ 32 ->
  exists b1 b2 b3 b4 : byte,
    send self m timeout w
    = (match on_sendall w with
       | SendallReturns => Return tt
       | SendallRaises e => Raise e
       end,
       [EvSendall (Byte.x08 :: b1 :: b2 :: b3 :: b4 :: data m)])
    /\ Struct.unpack_BI [Byte.x08; b1; b2; b3; b4] = Some (8, arbitration_id m)
    /\ length (Byte.x08 :: b1 :: b2 :: b3 :: b4 :: data m)
       = (5 + length (data m))%nat
    /\ (length (Byte.x08 :: b1 :: b2 :: b3 :: b4 :: data m) = 13%nat
        <-> length (data m) = 8%nat).
Proof.
  intros Hid.
  destruct (pack_unpack_BI _ Hid) as (b1 & b2 & b3 & b4 & Hpack & Hunpack).
  exists b1, b2, b3, b4. split; [|split; [exact Hunpack|split]].
  - unfold send. rewrite Hpack. unfold _tcp_send.
    destruct (on_sendall w); reflexivity.
  - reflexivity.
  - cbn [length]. lia.
Qed.

Lemma send_frame_shape_witness :
  exists b1 b2 b3 b4 : byte,
    send new_bus msg_123 None (recv_failing IndexError)
    = (Return tt,
       [EvSendall (Byte.x08 :: b1 :: b2 :: b3 :: b4 :: data msg_123)])
    /\ Struct.unpack_BI [Byte.x08; b1; b2; b3; b4]
       = Some (8, arbitration_id msg_123)
    /\ length (Byte.x08 :: b1 :: b2 :: b3 :: b4 :: data msg_123)
       = (5 + length (data msg_123))%nat
    /\ (length (Byte.x08 :: b1 :: b2 :: b3 :: b4 :: data msg_123) = 13%nat
        <-> length (data msg_123) = 8%nat).
Proof.
  apply (send_frame_shape new_bus msg_123 None (recv_failing IndexError)).
  cbn [arbitration_id msg_123]. lia.
Defined.

(** ** Bytes 1 to 4 of a window *)

Lemma byte_val_testbit_out (b : byte) (j : Z) :
  j < 0 \/ 8 <= j -> Z.testbit (byte_val b) j = false.
Proof.
  intros [Hj|Hj]; [apply Z.testbit_neg_r; exact Hj|].
  pose proof (byte_val_range b) as Hr.
  destruct (Z.eq_dec (byte_val b) 0) as [->|Hnz]; [apply Z.bits_0|].
  assert (Z.log2 (byte_val b) < 8) by (apply Z.log2_lt_pow2; lia).
  apply Z.bits_above_log2; lia.
Qed.

Ltac drop_foreign_bits :=
  repeat match goal with
         | |- context [Z.testbit (byte_val ?b) ?j] =>
             rewrite (byte_val_testbit_out b j) by lia
         end;
  rewrite ?orb_false_r, ?orb_false_l, ?andb_false_r, ?andb_true_r.

Lemma be32_testbit (b1 b2 b3 b4 : byte) (n : Z) :
  0 <= n ->
  Z.testbit (be32 b1 b2 b3 b4) n
  = Z.testbit (byte_val b1) (n - 24)
    || (Z.testbit (byte_val b2) (n - 16)
        || (Z.testbit (byte_val b3) (n - 8) || Z.testbit (byte_val b4) n)).
Proof.
  intros Hn. unfold be32. rewrite !Z.lor_spec, !Z.shiftl_spec by lia.
  reflexivity.
Qed.

Lemma be32_range (b1 b2 b3 b4 : byte) : 0 <= be32 b1 b2 b3 b4 < 2 ^ 32.
Proof.
  pose proof (byte_val_range b1). pose proof (byte_val_range b2).
  pose proof (byte_val_range b3). pose proof (byte_val_range b4).
  assert (Hnn : 0 <= be32 b1 b2 b3 b4).
  { unfold be32. repeat (apply Z.lor_nonneg; split);
      try (apply Z.shiftl_nonneg); lia. }
  split; [exact Hnn|].
  destruct (Z.lt_ge_cases (be32 b1 b2 b3 b4) (2 ^ 32)) as [Hlt|Hge];
    [exact Hlt|exfalso].
  assert (Hpos : 0 < be32 b1 b2 b3 b4) by lia.
  pose proof (Z.bit_log2 _ Hpos) as Hbit.
  assert (Hlog : 32 <= Z.log2 (be32 b1 b2 b3 b4)).
  { apply Z.log2_le_pow2; lia. }
  rewrite be32_testbit in Hbit by lia.
  revert Hbit. drop_foreign_bits. discriminate.
Qed.

Lemma be32_byte1 (b1 b2 b3 b4 : byte) :
  Z.land (Z.shiftr (be32 b1 b2 b3 b4) 24) 0xFF = byte_val b1.
Proof.
  apply Z.bits_inj'. intros n Hn.
  rewrite testbit_low_byte, Z.shiftr_spec, be32_testbit by lia.
  replace (n + 24 - 24) with n by lia.
  destruct (Z.ltb_spec n 8); drop_foreign_bits; reflexivity.
Qed.

Lemma be32_byte2 (b1 b2 b3 b4 : byte) :
  Z.land (Z.shiftr (be32 b1 b2 b3 b4) 16) 0xFF = byte_val b2.
Proof.
  apply Z.bits_inj'. intros n Hn.
  rewrite testbit_low_byte, Z.shiftr_spec, be32_testbit by lia.
  replace (n + 16 - 16) with n by lia.
  destruct (Z.ltb_spec n 8); drop_foreign_bits; reflexivity.
Qed.

Lemma be32_byte3 (b1 b2 b3 b4 : byte) :
  Z.land (Z.shiftr (be32 b1 b2 b3 b4) 8) 0xFF = byte_val b3.
Proof.
  apply Z.bits_inj'. intros n Hn.
  rewrite testbit_low_byte, Z.shiftr_spec, be32_testbit by lia.
  replace (n + 8 - 8) with n by lia.
  destruct (Z.ltb_spec n 8); drop_foreign_bits; reflexivity.
Qed.

Lemma be32_byte4 (b1 b2 b3 b4 : byte) :
  Z.land (be32 b1 b2 b3 b4) 0xFF = byte_val b4.
Proof.
  apply Z.bits_inj'. intros n Hn.
  rewrite testbit_low_byte, be32_testbit by lia.
  destruct (Z.ltb_spec n 8); drop_foreign_bits; reflexivity.
Qed.

(** Packing what four bytes unpack to gives the four bytes back. *)
Lemma pack_be32 (b1 b2 b3 b4 : byte) :
  Struct.pack_BI ethcan_message_head (be32 b1 b2 b3 b4)
  = Some [Byte.x08; b1; b2; b3; b4].
Proof.
  pose proof (be32_range b1 b2 b3 b4) as Hr. unfold Struct.pack_BI.
  replace ((0 <=? be32 b1 b2 b3 b4) && (be32 b1 b2 b3 b4 <=? 0xFFFFFFFF))
    with true
    by (symmetry; apply andb_true_iff; split; apply Z.leb_le; lia).
  rewrite be32_byte1, be32_byte2, be32_byte3, be32_byte4.
  rewrite !byte_of_Z_byte_val. reflexivity.
Qed.

(** ** Windows and the messages they give *)

Lemma window_messages_frame (h b1 b2 b3 b4 : byte) (d : list byte) :
  window_messages (h :: b1 :: b2 :: b3 :: b4 :: d)
  = if byte_val h <=? ethcan_message_head
    then [{| arbitration_id := be32 b1 b2 b3 b4;
             data := d;
             is_extended_id := false;
             timestamp := 0%float |}]
    else [].
Proof. reflexivity. Qed.

Lemma feed_buffers (chunk : list byte) (self : MorphleCanBus) :
  message_buffer (snd (feed chunk self))
  = message_buffer self ++ decoded (receive_buffer self ++ chunk)
  /\ receive_buffer (snd (feed chunk self))
     = leftover (receive_buffer self ++ chunk)
  /\ socket_closed (snd (feed chunk self)) = socket_closed self
  /\ fst (feed chunk self) = Return tt.
Proof.
  rewrite decoded_eq, leftover_eq, feed_spec. repeat split.
Qed.

Lemma decoded_aligned_app (k : nat) (p q : list byte) :
  length p = (k * 13)%nat ->
  decoded (p ++ q) = decoded p ++ decoded q
  /\ leftover (p ++ q) = leftover q.
Proof.
  intros Hp. rewrite !decoded_eq, !leftover_eq.
  rewrite (quotient_split k) by exact Hp.
  rewrite decode_windows_app by exact Hp.
  rewrite Hp, Nat.div_mul by lia. split; [reflexivity|].
  rewrite skipn_app, skipn_all2 by lia.
  replace ((k + length q / 13) * 13 - length p)%nat
    with (length q / 13 * 13)%nat by lia.
  reflexivity.
Qed.

Lemma decoded_single_window (w : list byte) :
  length w = 13%nat -> decoded w = window_messages w /\ leftover w = [].
Proof.
  intros Hw. rewrite decoded_eq, leftover_eq, Hw.
  change (13 / 13)%nat with 1%nat. cbn [decode_windows].
  unfold ethcan_message_fixed_len.
  rewrite firstn_all2, app_nil_r by lia. split; [reflexivity|].
  apply skipn_all2. lia.
Qed.

(** X3. Decoding then sending gives the wire bytes back: a 13-byte window
    whose head byte is at most 0x08 decodes to one message, and [send] of
    that message writes head 0x08 followed by bytes 1 to 12 of the window,
    unchanged. *)
Theorem decode_then_send (h : byte) (tail : list byte)
    (self : MorphleCanBus) (timeout : option float) (w : world) :
  length tail = 12%nat ->
  byte_val h <= 8 ->
  exists m : Message,
    decoded (h :: tail) = [m]
    /\ snd (send self m timeout w) = [EvSendall (Byte.x08 :: tail)].
Proof.
  intros Hlen Hh.
  destruct tail as [|b1 [|b2 [|b3 [|b4 d]]]]; try discriminate Hlen.
  destruct (decoded_single_window (h :: b1 :: b2 :: b3 :: b4 :: d)) as [Hd _].
  { cbn [length] in *. lia. }
  rewrite Hd, window_messages_frame. unfold ethcan_message_head at 1.
  destruct (Z.leb_spec (byte_val h) 8) as [_|Hgt]; [|lia].
  eexists. split; [reflexivity|].
  rewrite send_io_only_message. cbn [arbitration_id data].
  rewrite pack_be32. reflexivity.
Qed.

Lemma decode_then_send_witness :
  exists m : Message,
    decoded (Byte.x03 :: tail_full) = [m]
    /\ snd (send new_bus m None not_ready)
       = [EvSendall (Byte.x08 :: tail_full)].
Proof.
  apply (decode_then_send Byte.x03 tail_full new_bus None not_ready).
  - reflexivity.
  - vm_compute. discriminate.
Defined.

Lemma decode_windows_shape (n : nat) :
  forall s : list byte,
    (n * 13 <= length s)%nat ->
    Forall received_shape (decode_windows n s)
    /\ (length (decode_windows n s) <= n)%nat.
Proof.
  induction n as [|n IH]; intros s Hs.
  - cbn [decode_windows]. split; [constructor|cbn [length]; lia].
  - cbn [decode_windows]. unfold ethcan_message_fixed_len.
    destruct (IH (skipn 13 s)) as [IHshape IHlen].
    { rewrite length_skipn. lia. }
    assert (Hw : length (firstn 13 s) = 13%nat)
      by (rewrite length_firstn; lia).
    destruct (firstn 13 s) as [|h [|b1 [|b2 [|b3 [|b4 d]]]]];
      try discriminate Hw.
    rewrite window_messages_frame.
    destruct (byte_val h <=? ethcan_message_head).
    + split.
      * constructor; [|exact IHshape].
        cbn [length] in Hw. repeat split; cbn [data arbitration_id];
          try lia; apply be32_range.
      * cbn [app length]. lia.
    + split; [exact IHshape|cbn [app]; lia].
Qed.

(** X4. Whatever the bus holds and whatever chunk arrives, a reassembly
    pass only appends to the queue, and every message it appends has exactly
    8 data bytes, an arbitration ID in [0, 2^32), [is_extended_id] false and
    timestamp 0.0; it appends at most one message per complete 13-byte slice
    of the carry-over buffer followed by the chunk. *)
Theorem feed_appends_well_formed (self : MorphleCanBus) (chunk : list byte) :
  exists new : list Message,
    message_buffer (snd (feed chunk self)) = message_buffer self ++ new
    /\ Forall received_shape new
    /\ (length new <= length (receive_buffer self ++ chunk) / 13)%nat.
Proof.
  exists (decoded (receive_buffer self ++ chunk)).
  split; [apply feed_buffers|].
  rewrite decoded_eq. apply decode_windows_shape.
  pose proof (Nat.Div0.mul_div_le (length (receive_buffer self ++ chunk)) 13).
  lia.
Qed.

Lemma decode_windows_count (n : nat) :
  forall (a : nat) (s : list byte),
    ((a + n) * 13 <= length s)%nat ->
    length (decode_windows n (skipn (a * 13) s))
    = length
        (filter
           (fun i =>
              match nth_error s (i * ethcan_message_fixed_len) with
              | Some head => byte_val head <=? ethcan_message_head
              | None => false
              end)
           (seq a n)).
Proof.
  induction n as [|n IH]; intros a s Hs; [reflexivity|].
  cbn [decode_windows seq filter]. unfold ethcan_message_fixed_len.
  rewrite skipn_skipn, length_app.
  replace (13 + a * 13)%nat with (S a * 13)%nat by lia.
  rewrite (IH (S a) s) by lia. unfold ethcan_message_fixed_len.
  rewrite <- (hd_error_skipn (a * 13) s).
  assert (Hw : length (firstn 13 (skipn (a * 13) s)) = 13%nat)
    by (rewrite length_firstn, length_skipn; lia).
  destruct (skipn (a * 13) s) as [|h rest]; [discriminate Hw|].
  rewrite firstn_cons in *. cbn [hd_error].
  destruct (firstn 12 rest) as [|b1 [|b2 [|b3 [|b4 d]]]];
    try discriminate Hw.
  rewrite window_messages_frame.
  destruct (byte_val h <=? ethcan_message_head); reflexivity.
Qed.

(** X5. A pass decodes exactly one message for each complete 13-byte window
    whose head byte is at most 0x08 and none for the others: the number of
    decoded messages is the number of accepted windows. *)
Theorem decoded_count (s : list byte) :
  length (decoded s) = length (accepted_windows s)
  /\ (length (accepted_windows s) <= length s / 13)%nat.
Proof.
  split.
  - pose proof (decode_windows_count (length s / 13) 0 s) as Hcount.
    change (skipn (0 * 13) s) with s in Hcount.
    rewrite decoded_eq, Hcount; [reflexivity|].
    pose proof (Nat.Div0.mul_div_le (length s) 13). lia.
  - unfold accepted_windows.
    etransitivity; [apply filter_length_le|]. rewrite length_seq.
    apply Nat.le_refl.
Qed.

(** X6. When the head byte of every complete window of the carry-over
    buffer followed by the chunk exceeds 0x08, the pass returns without
    raising, adds no message to the queue, and drops all the complete
    windows: only the trailing bytes short of a window remain. *)
Theorem all_garbage_drained (self : MorphleCanBus) (chunk : list byte) :
  let s := receive_buffer self ++ chunk in
  (forall i : nat,
      (i < length s / 13)%nat ->
      exists head : byte,
        nth_error s (i * 13) = Some head /\ 8 < byte_val head) ->
  feed chunk self
  = (Return tt,
     set_receive_buffer (skipn (length s / 13 * 13) s) self).
Proof.
  intros s Hall.
  assert (Hnone : decoded s = []).
  { apply length_zero_iff_nil. rewrite (proj1 (decoded_count s)).
    unfold accepted_windows.
    assert (Hf : forall l : list nat,
               (forall i, In i l -> (i < length s / 13)%nat) ->
               filter
                 (fun i =>
                    match nth_error s (i * ethcan_message_fixed_len) with
                    | Some head => byte_val head <=? ethcan_message_head
                    | None => false
                    end) l = []).
    { induction l as [|i l IHl]; intros Hin; [reflexivity|].
      cbn [filter]. destruct (Hall i) as (head & Hnth & Hbad).
      { apply Hin. left. reflexivity. }
      unfold ethcan_message_fixed_len, ethcan_message_head in *.
      rewrite Hnth.
      destruct (Z.leb_spec (byte_val head) 8) as [Hle|_]; [lia|].
      apply IHl. intros j Hj. apply Hin. right. exact Hj. }
    rewrite Hf; [reflexivity|].
    intros i Hi. apply in_seq in Hi. unfold ethcan_message_fixed_len in Hi.
    lia. }
  rewrite feed_spec. fold s. rewrite <- decoded_eq, Hnone, app_nil_r.
  reflexivity.
Qed.

Lemma all_garbage_drained_witness :
  feed (skipn 3 frame_garbage ++ frame_garbage ++ [Byte.x08])
    {| message_buffer := [msg_other];
       receive_buffer := firstn 3 frame_garbage;
       socket_closed := false |}
  = (Return tt,
     {| message_buffer := [msg_other];
        receive_buffer := [Byte.x08];
        socket_closed := false |}).
Proof.
  apply (all_garbage_drained
           {| message_buffer := [msg_other];
              receive_buffer := firstn 3 frame_garbage;
              socket_closed := false |}
           (skipn 3 frame_garbage ++ frame_garbage ++ [Byte.x08])).
  intros i Hi.
  assert (Hcases : i = 0%nat \/ i = 1%nat).
  { change (i < 2)%nat in Hi. lia. }
  destruct Hcases as [->| ->]; exists Byte.xff;
    (split; [reflexivity|vm_compute; reflexivity]).
Defined.

(** ** Frames sent, then received *)

Lemma sent_bytes_full (m : Message) :
  full_frame_message m ->
  length (sent_bytes m) = 13%nat
  /\ window_messages (sent_bytes m) = [as_received m].
Proof.
  intros [Hlen Hid]. unfold sent_bytes. rewrite send_io_only_message.
  destruct (pack_unpack_BI _ Hid) as (b1 & b2 & b3 & b4 & Hpack & Hunpack).
  rewrite Hpack. cbn [app]. split; [cbn [length]; lia|].
  rewrite window_messages_frame.
  change (byte_val Byte.x08 <=? ethcan_message_head) with true. cbn iota.
  assert (Hv : be32 b1 b2 b3 b4 = arbitration_id m).
  { change (Some (byte_val Byte.x08, be32 b1 b2 b3 b4)
            = Some (8, arbitration_id m)) in Hunpack.
    congruence. }
  rewrite Hv. reflexivity.
Qed.

(** X7. The bytes [send] writes for a list of messages, each with an 8-byte
    payload and an arbitration ID below 2^32, put end to end and followed by
    any further bytes, are decoded by one pass into those messages, in the
    order sent and with [is_extended_id] false and timestamp 0.0, followed by
    what the further bytes decode to; the carry-over buffer is the one the
    further bytes leave. *)
Theorem sent_frames_decode_in_order (ms : list Message) (rest : list byte) :
  Forall full_frame_message ms ->
  decoded (concat (map sent_bytes ms) ++ rest)
  = map as_received ms ++ decoded rest
  /\ leftover (concat (map sent_bytes ms) ++ rest) = leftover rest.
Proof.
  induction 1 as [|m ms Hm Hms IH]; [split; reflexivity|].
  destruct IH as [IHd IHl].
  destruct (sent_bytes_full m Hm) as [Hlen Hwin].
  cbn [map concat]. rewrite <- app_assoc.
  destruct (decoded_aligned_app 1 (sent_bytes m)
              (concat (map sent_bytes ms) ++ rest)) as [Hd Hl];
    [rewrite Hlen; reflexivity|].
  rewrite Hd, Hl, IHd, IHl.
  rewrite (proj1 (decoded_single_window _ Hlen)), Hwin.
  split; reflexivity.
Qed.

Lemma sent_frames_decode_in_order_witness :
  decoded (concat (map sent_bytes [msg_full; msg_other; msg_full])
             ++ [Byte.x08; Byte.x00])
  = map as_received [msg_full; msg_other; msg_full]
      ++ decoded [Byte.x08; Byte.x00]
  /\ leftover (concat (map sent_bytes [msg_full; msg_other; msg_full])
                 ++ [Byte.x08; Byte.x00])
     = leftover [Byte.x08; Byte.x00].
Proof.
  apply (sent_frames_decode_in_order [msg_full; msg_other; msg_full]
           [Byte.x08; Byte.x00]).
  repeat constructor; cbn [arbitration_id msg_full msg_other]; lia.
Defined.

(** ** Passes over chunks *)

Lemma decoded_short (s : list byte) :
  (length s < 13)%nat -> decoded s = [] /\ leftover s = s.
Proof.
  intros Hs. rewrite decoded_eq, leftover_eq, Nat.div_small by exact Hs.
  split; reflexivity.
Qed.

Lemma leftover_length (s : list byte) : (length (leftover s) < 13)%nat.
Proof. rewrite leftover_eq. apply leftover_short. Qed.

(** Decoding a stream in two parts: the second pass starts from what the
    first left. *)
Lemma decoded_leftover_app (a b : list byte) :
  decoded (a ++ b) = decoded a ++ decoded (leftover a ++ b)
  /\ leftover (a ++ b) = leftover (leftover a ++ b).
Proof.
  pose proof (feed_app a b new_bus) as H.
  destruct (feed_buffers (a ++ b) new_bus) as (Hm & Hr & _).
  destruct (feed_buffers b (snd (feed a new_bus))) as (Hm' & Hr' & _).
  rewrite <- H in Hm', Hr'. rewrite Hm in Hm'. rewrite Hr in Hr'.
  cbn [message_buffer receive_buffer new_bus app] in Hm', Hr'.
  split; [exact Hm'|exact Hr'].
Qed.

(** X8. From a bus whose carry-over buffer is shorter than a frame, passes
    over any sequence of chunks, however the stream is cut and empty chunks
    included, end in the state of one pass over the chunks put end to end. *)
Theorem feed_any_chunking (chunks : list (list byte)) (self : MorphleCanBus) :
  (length (receive_buffer self) < 13)%nat ->
  feed_all chunks self = feed (concat chunks) self.
Proof. intros H. apply feed_all_concat. exact H. Qed.

Lemma feed_any_chunking_witness :
  feed_all [firstn 10 frame_full; []; skipn 10 frame_full ++ frame_garbage;
            frame_full ++ [Byte.x08]] bus_mid_frame
  = feed (concat [firstn 10 frame_full; [];
                  skipn 10 frame_full ++ frame_garbage;
                  frame_full ++ [Byte.x08]]) bus_mid_frame.
Proof.
  apply (feed_any_chunking
           [firstn 10 frame_full; []; skipn 10 frame_full ++ frame_garbage;
            frame_full ++ [Byte.x08]] bus_mid_frame).
  cbn [receive_buffer bus_mid_frame length]. lia.
Defined.

Lemma partial_frame_is_buffered_aux
    (self : MorphleCanBus) (chunk : list byte) :
  (length (receive_buffer self) + length chunk < 13)%nat ->
  feed chunk self
  = (Return tt, set_receive_buffer (receive_buffer self ++ chunk) self)
  /\ forall timeout : option float,
       message_buffer self = [] ->
       _recv_internal self timeout (delivering chunk)
       = (Return (None, false),
          set_receive_buffer (receive_buffer self ++ chunk) self,
          [EvSelect timeout; EvRecv 1024]).
Proof.
  intros Hshort.
  assert (Hfeed : feed chunk self
            = (Return tt,
               set_receive_buffer (receive_buffer self ++ chunk) self)).
  { rewrite feed_spec. cbv zeta.
    rewrite Nat.div_small by (rewrite length_app; exact Hshort).
    cbn [decode_windows Nat.mul skipn]. rewrite app_nil_r. reflexivity. }
  split; [exact Hfeed|].
  intros timeout Hq. unfold _recv_internal. rewrite Hq.
  cbn [on_select on_recv delivering]. rewrite Hfeed.
  cbn [message_buffer set_receive_buffer]. rewrite Hq. reflexivity.
Qed.


(** X9. While the carry-over buffer and the chunk together are shorter than
    one frame, the pass decodes nothing and keeps every byte: the chunk is
    appended to the carry-over buffer and the queue is unchanged; a receive
    call that reads such a chunk with an empty queue returns
    [(None, False)]. *)
Theorem partial_frame_is_buffered
    (self : MorphleCanBus) (chunk : list byte) (timeout : option float) :
  (length (receive_buffer self) + length chunk < 13)%nat ->
  feed chunk self
  = (Return tt, set_receive_buffer (receive_buffer self ++ chunk) self)
  /\ (message_buffer self = [] ->
      _recv_internal self timeout (delivering chunk)
      = (Return (None, false),
         set_receive_buffer (receive_buffer self ++ chunk) self,
         [EvSelect timeout; EvRecv 1024])).
Proof.
  intros Hshort.
  destruct (partial_frame_is_buffered_aux self chunk Hshort) as [Hf Hr].
  split; [exact Hf|apply Hr].
Qed.

Lemma partial_frame_is_buffered_witness :
  feed (firstn 9 (skipn 3 frame_full)) bus_mid_frame
  = (Return tt,
     set_receive_buffer
       (receive_buffer bus_mid_frame ++ firstn 9 (skipn 3 frame_full))
       bus_mid_frame)
  /\ _recv_internal bus_mid_frame None
       (delivering (firstn 9 (skipn 3 frame_full)))
     = (Return (None, false),
        set_receive_buffer
          (receive_buffer bus_mid_frame ++ firstn 9 (skipn 3 frame_full))
          bus_mid_frame,
        [EvSelect None; EvRecv 1024]).
Proof.
  destruct (partial_frame_is_buffered bus_mid_frame
              (firstn 9 (skipn 3 frame_full)) None) as [Hf Hr].
  - cbn. lia.
  - split; [exact Hf|apply Hr; reflexivity].
Defined.

(** ** Receive calls *)

(** X10. A receive call that raises leaves the bus exactly as it was: no
    byte of the carry-over buffer and no queued message is lost.  It raises
    only after a socket call, and what it raises is a [CanError], or the
    exception of the readiness check itself when that is not an [OSError]. *)
Theorem recv_raise_leaves_state
    (self self' : MorphleCanBus) (timeout : option float) (w : world)
    (e : exn) (io : list event) :
  _recv_internal self timeout w = (Raise e, self', io) ->
  self' = self
  /\ io <> []
  /\ ((exists cause, e = CanError cause)
      \/ (on_select w = SelectRaises e /\ is_OSError e = false)).
Proof.
  unfold _recv_internal. destruct (message_buffer self); [|discriminate].
  destruct (on_select w) as [[|]|exc] eqn:Hsel.
  - destruct (on_recv w) as [chunk|exc].
    + destruct (feed_buffers chunk self) as (_ & _ & _ & Hok).
      destruct (feed chunk self) as [[[]|exc] s]; [|discriminate Hok].
      destruct (message_buffer s); discriminate.
    + intros H. injection H as <- <- <-.
      split; [reflexivity|]. split; [discriminate|]. left. eexists. reflexivity.
  - discriminate.
  - destruct (is_OSError exc) eqn:Hos; intros H; injection H as <- <- <-;
      (split; [reflexivity|]); (split; [discriminate|]).
    + left. eexists. reflexivity.
    + right. split; [reflexivity|exact Hos].
Qed.

Lemma recv_raise_leaves_state_witness :
  bus_mid_frame = bus_mid_frame
  /\ [EvSelect None; EvRecv 1024] <> []
  /\ ((exists cause, CanError (OSError "Connection reset by peer")
                     = CanError cause)
      \/ (on_select (recv_failing (OSError "Connection reset by peer"))
          = SelectRaises (CanError (OSError "Connection reset by peer"))
          /\ is_OSError (CanError (OSError "Connection reset by peer"))
             = false)).
Proof.
  apply (recv_raise_leaves_state bus_mid_frame bus_mid_frame None
           (recv_failing (OSError "Connection reset by peer"))
           (CanError (OSError "Connection reset by peer"))
           [EvSelect None; EvRecv 1024]).
  reflexivity.
Defined.

(** One call: the message it returns, followed by the queue it leaves, is
    the queue it found followed by what the bytes it took complete. *)
Lemma recv_call_conserves
    (self self' : MorphleCanBus) (timeout : option float) (w : world)
    (r : result (option Message * bool)) (io : list event) :
  (length (receive_buffer self) < 13)%nat ->
  _recv_internal self timeout w = (r, self', io) ->
  match r with
  | Return (Some m, _) => m :: message_buffer self'
  | _ => message_buffer self'
  end
  = message_buffer self
      ++ decoded (receive_buffer self ++ bytes_taken self w)
  /\ receive_buffer self' = leftover (receive_buffer self ++ bytes_taken self w)
  /\ socket_closed self' = socket_closed self.
Proof.
  intros Hshort. unfold _recv_internal, bytes_taken.
  destruct (decoded_short _ Hshort) as [Hd Hl].
  destruct (message_buffer self) as [|m q] eqn:Hq.
  2:{ intros H. injection H as <- <- <-.
      cbn [message_buffer receive_buffer socket_closed set_message_buffer].
      rewrite app_nil_r, Hd, Hl, app_nil_r. repeat split. }
  assert (Hsame : message_buffer self = [] ++ decoded (receive_buffer self ++ [])
                  /\ receive_buffer self = leftover (receive_buffer self ++ [])
                  /\ socket_closed self = socket_closed self).
  { rewrite app_nil_r, Hd, Hl, Hq. repeat split. }
  destruct (on_select w) as [[|]|exc].
  - destruct (on_recv w) as [chunk|exc].
    + destruct (feed_buffers chunk self) as (Hm & Hr & Hc & Hok).
      rewrite Hq in Hm.
      destruct (feed chunk self) as [[[]|exc] s]; [|discriminate Hok].
      cbn [snd] in Hm, Hr, Hc.
      destruct (message_buffer s) as [|m q] eqn:Hs;
        intros H; injection H as <- <- <-;
        cbn [message_buffer receive_buffer socket_closed set_message_buffer];
        rewrite ?Hs, <- Hm, Hr, Hc; repeat split.
    + intros H. injection H as <- <- <-. exact Hsame.
  - intros H. injection H as <- <- <-. exact Hsame.
  - destruct (is_OSError exc); intros H; injection H as <- <- <-; exact Hsame.
Qed.

(** X11. Over any sequence of receive calls, whatever the socket answers in
    each (ready or not, bytes, zero bytes, exceptions), starting with a
    carry-over buffer shorter than a frame: the messages returned, followed by
    the messages still queued, are the messages queued at the start followed
    by what one pass over all the bytes taken from the socket decodes, in that
    order.  No message is lost, repeated or reordered; the carry-over buffer
    at the end is the one that single pass leaves, shorter than a frame. *)
Theorem poll_conserves_stream
    (ws : list world) (timeout : option float) (self : MorphleCanBus) :
  (length (receive_buffer self) < 13)%nat ->
  let p := poll ws timeout self in
  got p ++ message_buffer (final p)
  = message_buffer self ++ decoded (receive_buffer self ++ taken p)
  /\ receive_buffer (final p) = leftover (receive_buffer self ++ taken p)
  /\ (length (receive_buffer (final p)) < 13)%nat.
Proof.
  revert self. induction ws as [|w ws IH]; intros self Hshort p.
  - unfold p. cbn [poll got taken final].
    destruct (decoded_short _ Hshort) as [Hd Hl].
    rewrite app_nil_r, Hd, Hl, app_nil_r. repeat split. exact Hshort.
  - unfold p. cbn [poll].
    destruct (_recv_internal self timeout w) as [[r self'] io] eqn:Hcall.
    destruct (recv_call_conserves _ _ _ _ _ _ Hshort Hcall) as (Hm & Hr & _).
    assert (Hshort' : (length (receive_buffer self') < 13)%nat)
      by (rewrite Hr; apply leftover_length).
    destruct (IH self' Hshort') as (IHm & IHr & IHs).
    cbn [got taken final].
    destruct (decoded_leftover_app (receive_buffer self ++ bytes_taken self w)
                (taken (poll ws timeout self'))) as [Hd Hl].
    rewrite <- Hr in Hd, Hl. rewrite app_assoc, Hd, Hl, app_assoc, <- Hm.
    split; [|split; [exact IHr|exact IHs]].
    destruct r as [[[m|] flag]|exc]; cbn [app]; rewrite <- ?app_assoc;
      rewrite <- IHm; reflexivity.
Qed.

Lemma poll_conserves_stream_witness :
  let p := poll [delivering (firstn 10 frame_full);
                 select_failing (OSError "Network is down");
                 delivering (skipn 10 frame_full ++ frame_garbage
                               ++ frame_full ++ [Byte.x08]);
                 not_ready;
                 recv_failing IndexError]
             None new_bus in
  got p ++ message_buffer (final p)
  = message_buffer new_bus ++ decoded (receive_buffer new_bus ++ taken p)
  /\ receive_buffer (final p) = leftover (receive_buffer new_bus ++ taken p)
  /\ (length (receive_buffer (final p)) < 13)%nat.
Proof.
  apply (poll_conserves_stream
           [delivering (firstn 10 frame_full);
            select_failing (OSError "Network is down");
            delivering (skipn 10 frame_full ++ frame_garbage
                          ++ frame_full ++ [Byte.x08]);
            not_ready;
            recv_failing IndexError]
           None new_bus).
  cbn [receive_buffer new_bus length]. lia.
Defined.

(** The run of the witness, evaluated: the frame split over two reads and the
    one after the rejected window both arrive, in order. *)
Example poll_run :
  let p := poll [delivering (firstn 10 frame_full);
                 select_failing (OSError "Network is down");
                 delivering (skipn 10 frame_full ++ frame_garbage
                               ++ frame_full ++ [Byte.x08]);
                 not_ready;
                 recv_failing IndexError]
             None new_bus in
  got p = [msg_full; msg_full]
  /\ message_buffer (final p) = []
  /\ receive_buffer (final p) = [Byte.x08].
Proof. vm_compute. repeat split. Qed.

(** X12. With [n] messages queued, the next [n] receive calls return them
    oldest first without a single socket call and without touching the
    carry-over buffer, whatever the state of the socket. *)
Theorem queued_messages_drain
    (ws : list world) (timeout : option float) (self : MorphleCanBus) :
  length ws = length (message_buffer self) ->
  poll ws timeout self
  = {| got := message_buffer self;
       taken := [];
       sock_calls := [];
       final := set_message_buffer [] self |}.
Proof.
  revert self. induction ws as [|w ws IH]; intros self Hlen.
  - destruct self as [q b c]. cbn [message_buffer length] in Hlen.
    destruct q; [reflexivity|discriminate Hlen].
  - destruct self as [q b c]. cbn [message_buffer length] in Hlen.
    destruct q as [|m q]; [discriminate Hlen|]. cbn [length] in Hlen.
    cbn [poll _recv_internal message_buffer set_message_buffer
         receive_buffer socket_closed bytes_taken].
    rewrite IH by (unfold set_message_buffer; cbn [message_buffer]; lia).
    reflexivity.
Qed.

Lemma queued_messages_drain_witness :
  poll [recv_failing IndexError; select_failing (OSError "Network is down")]
    None
    {| message_buffer := [msg_full; msg_other];
       receive_buffer := [Byte.x08];
       socket_closed := true |}
  = {| got := [msg_full; msg_other];
       taken := [];
       sock_calls := [];
       final := {| message_buffer := [];
                   receive_buffer := [Byte.x08];
                   socket_closed := true |} |}.
Proof.
  apply (queued_messages_drain
           [recv_failing IndexError; select_failing (OSError "Network is down")]
           None
           {| message_buffer := [msg_full; msg_other];
              receive_buffer := [Byte.x08];
              socket_closed := true |}).
  reflexivity.
Defined.

Ltac shape_iff :=
  let H := fresh "H" in
  let Ha := fresh "Ha" in
  let Hb := fresh "Hb" in
  split; intro H;
  solve [ discriminate H | reflexivity | discriminate
        | match type of H with
          | _ /\ _ =>
              destruct H as [Ha Hb];
              solve [ discriminate Ha | discriminate Hb
                    | exfalso; apply Hb; reflexivity ]
          end
        | exfalso; apply H; reflexivity
        | split; solve [reflexivity | discriminate] ].

Ltac shape_ret :=
  let r := fresh "r" in
  let flag := fresh "flag" in
  let self' := fresh "self'" in
  let H := fresh "H" in
  let Hn := fresh "Hn" in
  intros r flag self' H;
  solve [ discriminate H
        | injection H as <- <- <-;
          split; [reflexivity|];
          intros Hn; solve [discriminate Hn | assumption] ].

(** X13. A receive call touches the socket exactly when the queue is empty:
    then it makes the readiness check first and at most one read of up to
    1024 bytes, the read only when the socket was reported ready.  When it
    returns, the filter flag is [False], and a result of [None] means that no
    message is pending on the bus. *)
Theorem recv_call_shape
    (self : MorphleCanBus) (timeout : option float) (w : world) :
  let io := snd (_recv_internal self timeout w) in
  (io = [] <-> message_buffer self <> [])
  /\ (io = [EvSelect timeout; EvRecv 1024]
      <-> message_buffer self = [] /\ on_select w = SelectReturns true)
  /\ (io = [EvSelect timeout]
      <-> message_buffer self = [] /\ on_select w <> SelectReturns true)
  /\ forall r flag self',
       fst (_recv_internal self timeout w) = (Return (r, flag), self') ->
       flag = false /\ (r = None -> message_buffer self' = []).
Proof.
  unfold _recv_internal.
  destruct (message_buffer self) as [|m q] eqn:Hq.
  2:{ cbn [fst snd]. repeat (split; [shape_iff|]). shape_ret. }
  destruct (on_select w) as [[|]|exc].
  - destruct (on_recv w) as [chunk|exc].
    + destruct (feed_buffers chunk self) as (_ & _ & _ & Hok).
      destruct (feed chunk self) as [[[]|exc] s]; [|discriminate Hok].
      destruct (message_buffer s) as [|m q] eqn:Hs; cbn [fst snd];
        repeat (split; [shape_iff|]); shape_ret.
    + cbn [fst snd]. repeat (split; [shape_iff|]). shape_ret.
  - cbn [fst snd]. repeat (split; [shape_iff|]). shape_ret.
  - destruct (is_OSError exc); cbn [fst snd];
      repeat (split; [shape_iff|]); shape_ret.
Qed.

(** ** Sending and the frame boundary *)

Lemma sent_bytes_shape (m : Message) :
  0 <= arbitration_id m < 2 ^ 32 ->
  exists b1 b2 b3 b4 : byte,
    sent_bytes m = Byte.x08 :: b1 :: b2 :: b3 :: b4 :: data m
    /\ be32 b1 b2 b3 b4 = arbitration_id m.
Proof.
  intros Hid. unfold sent_bytes. rewrite send_io_only_message.
  destruct (pack_unpack_BI _ Hid) as (b1 & b2 & b3 & b4 & Hpack & Hunpack).
  rewrite Hpack. exists b1, b2, b3, b4. split; [reflexivity|].
  change (Some (byte_val Byte.x08, be32 b1 b2 b3 b4)
          = Some (8, arbitration_id m)) in Hunpack.
  congruence.
Qed.

(** X14. The wire form determines the message: two messages with
    arbitration IDs below 2^32 for which [send] writes the same bytes have the
    same arbitration ID and the same data, whatever the payload lengths. *)
Theorem sent_bytes_injective (m1 m2 : Message) :
  0 <= arbitration_id m1 < 2 ^ 32 ->
  0 <= arbitration_id m2 < 2 ^ 32 ->
  sent_bytes m1 = sent_bytes m2 ->
  arbitration_id m1 = arbitration_id m2 /\ data m1 = data m2.
Proof.
  intros H1 H2 Heq.
  destruct (sent_bytes_shape m1 H1) as (a1 & a2 & a3 & a4 & Ha & Hva).
  destruct (sent_bytes_shape m2 H2) as (c1 & c2 & c3 & c4 & Hc & Hvc).
  rewrite Ha, Hc in Heq. injection Heq as E1 E2 E3 E4 Ed.
  subst. split; [congruence|exact Ed].
Qed.

Lemma sent_bytes_injective_witness :
  arbitration_id msg_full = arbitration_id (as_received msg_full)
  /\ data msg_full = data (as_received msg_full).
Proof.
  apply (sent_bytes_injective msg_full (as_received msg_full)).
  - cbn [arbitration_id msg_full]. lia.
  - cbn [arbitration_id as_received msg_full]. lia.
  - reflexivity.
Defined.

(** X15. [send] does not pad: for a message with fewer than 8 data bytes
    the bytes written are shorter than a frame, so a bus running this receive
    path that reads them alone decodes no message and keeps them all in its
    carry-over buffer, to be completed by whatever bytes come next. *)
Theorem short_payload_not_delivered (m : Message) :
  0 <= arbitration_id m < 2 ^ 32 ->
  (length (data m) < 8)%nat ->
  sent_bytes m <> []
  /\ feed (sent_bytes m) new_bus
     = (Return tt, set_receive_buffer (sent_bytes m) new_bus)
  /\ forall timeout : option float,
       _recv_internal new_bus timeout (delivering (sent_bytes m))
       = (Return (None, false), set_receive_buffer (sent_bytes m) new_bus,
          [EvSelect timeout; EvRecv 1024]).
Proof.
  intros Hid Hlen.
  destruct (sent_bytes_shape m Hid) as (b1 & b2 & b3 & b4 & Hs & _).
  assert (Hshort : (length (receive_buffer new_bus) + length (sent_bytes m)
                    < 13)%nat).
  { rewrite Hs. cbn [receive_buffer new_bus length]. lia. }
  split; [rewrite Hs; discriminate|].
  split.
  - apply (proj1 (partial_frame_is_buffered_aux new_bus (sent_bytes m) Hshort)).
  - intros timeout.
    apply (proj2 (partial_frame_is_buffered_aux new_bus (sent_bytes m) Hshort)).
    reflexivity.
Qed.

Lemma short_payload_not_delivered_witness :
  sent_bytes msg_123 <> []
  /\ feed (sent_bytes msg_123) new_bus
     = (Return tt, set_receive_buffer (sent_bytes msg_123) new_bus)
  /\ forall timeout : option float,
       _recv_internal new_bus timeout (delivering (sent_bytes msg_123))
       = (Return (None, false), set_receive_buffer (sent_bytes msg_123) new_bus,
          [EvSelect timeout; EvRecv 1024]).
Proof.
  apply (short_payload_not_delivered msg_123).
  - cbn [arbitration_id msg_123]. lia.
  - cbn [data msg_123 length]. lia.
Defined.
